(** * order-filler: the book-keeping and fill-scheduling engine of [src/index.ts]

    A shallow embedding of [runBot] and of the closures it defines
    ([updateUserOrders], [processUser], [fetchAllUsers], [handleOrderRecord],
    [updateOrderList], [fetchUserAndAddToUserMap], [findNodesToFill],
    [tryFillForMarket] and the [.catch] handler of [fillOrder]), followed by
    the properties established about them. *)

From Stdlib Require Import ZArith List Bool Lia.
From Stdlib Require Import Floats.SpecFloat.
From stdpp Require Import base option list gmap sets strings.

Local Open Scope Z_scope.

(** ** JavaScript numbers

    A JS [number] is an IEEE-754 binary64 value.  The operations used by
    [processUser] are modelled over [spec_float], the inductive description
    of binary floating-point data, instantiated at 53 bits of precision. *)
Module JsNumber.

Definition prec : Z := 53.
Definition emax : Z := 1024.

Definition number : Type := spec_float.

(** The number denoted by an integer literal, rounded to nearest-even. *)
Definition ofZ (z : Z) : number := binary_normalize prec emax z 0 false.

Definition mul (x y : number) : number := SFmul prec emax x y.
Definition add (x y : number) : number := SFadd prec emax x y.
Definition div (x y : number) : number := SFdiv prec emax x y.

(** [x ** 2].  For an integral [x] below [2^26] the square is exact; above
    that the product is only compared with [60000]. *)
Definition pow2 (x : number) : number := mul x x.

(** [Math.round]: the integer closest to [x], ties going towards
    [+Infinity]; a result of zero keeps the sign of [x]. *)
Definition Math_round (x : number) : number :=
  match x with
  | S754_finite s m e =>
      if 0 <=? e then x
      else
        let k := Z.opp e in
        let sm := if s then Z.neg m else Z.pos m in
        let n := (2 * sm + 2 ^ k) / 2 ^ (k + 1) in
        if n =? 0 then S754_zero s else ofZ n
  | _ => x
  end.

Definition is_nan (x : number) : bool :=
  match x with S754_nan => true | _ => false end.

(** [Math.min] of two arguments: [NaN] if either is, the smaller one
    otherwise ([-0] counting as smaller than [+0]). *)
Definition Math_min (x y : number) : number :=
  if is_nan x || is_nan y then S754_nan
  else match SFcompare x y with
       | Some Lt => x
       | Some Gt => y
       | _ => match x with S754_zero true => x | _ => y end
       end.

(** The integer value of an integral number, used to read results back. *)
Definition toZ (x : number) : option Z :=
  match x with
  | S754_zero _ => Some 0
  | S754_finite s m e =>
      if 0 <=? e then Some ((if s then Z.neg m else Z.pos m) * 2 ^ e)
      else if (Z.pos m mod 2 ^ (- e)) =? 0
           then Some ((if s then Z.neg m else Z.pos m) / 2 ^ (- e))
           else None
  | _ => None
  end.

End JsNumber.

(** [nextOrderHistoryIndex] is a JS number that only ever holds an integer
    or, after a remainder by zero, [NaN]. *)
Inductive JsIndex := Num (z : Z) | NaN.

Definition JsIndex_strict_ne (a : JsIndex) (b : Z) : bool :=
  match a with
  | Num z => negb (z =? b)
  | NaN => true
  end.

(** [(i + 1) % n] on such a value. *)
Definition JsIndex_succ_mod (a : JsIndex) (n : Z) : JsIndex :=
  match a with
  | Num z => if n =? 0 then NaN else Num (Z.rem (z + 1) n)
  | NaN => NaN
  end.

(** ** Data of the SDK and of the ledger

    Amounts, prices and indices are [BN] big integers: [Z].  A [PublicKey]
    is identified with its base-58 text, which is what [toString] returns
    and what keys the user map. *)
Definition PublicKey : Type := string.

Inductive PositionDirection := long | short.
Inductive OrderType := limit | triggerMarket | triggerLimit | market.
Inductive OrderAction := place | cancel | fill | expire.

Record Order := {
  orderId : Z;
  marketIndex : Z;
  direction : PositionDirection;
  orderType : OrderType;
  price : Z;
  oraclePriceOffset : Z;
  reduceOnly : bool;
  postOnly : bool;
  baseAssetAmount : Z;
  baseAssetAmountFilled : Z
}.

Record OrderRecord := {
  record_action : OrderAction;
  record_user : PublicKey;
  record_order : Order
}.

Record OrderHistoryAccount := {
  history_head : Z;
  orderRecords : list OrderRecord
}.

Record UserOrdersAccount := {
  orders_user : PublicKey;
  orders : list Order
}.

Record UserAccount := {
  account_authority : PublicKey;
  collateral : Z
}.

(** One element of [program.account.<name>.all()]. *)
Record ProgramAccount (A : Type) := {
  publicKey : PublicKey;
  account : A
}.
Arguments publicKey {A} _.
Arguments account {A} _.

(** A [ClearingHouseUser] handle, built from the authority it polls. *)
Record ClearingHouseUser := { authority : PublicKey }.

Record Market := {
  market_oracle : PublicKey;
  minimumBaseAssetTradeSize : Z
}.

(** What a rejected promise or a thrown exception carries. *)
Record Error := { message : string }.

Definition ZERO : Z := 0.
Definition TEN_THOUSAND : Z := 10000.
(** [QUOTE_PRECISION] of the SDK: [10^6], one dollar of collateral. *)
Definition QUOTE_PRECISION : Z := 1000000.

(** [isVariant(x, name)] on the two enumerations it is applied to. *)
Definition isVariant_orderType (t name : OrderType) : bool :=
  match t, name with
  | limit, limit | triggerMarket, triggerMarket
  | triggerLimit, triggerLimit | market, market => true
  | _, _ => false
  end.

Definition isVariant_direction (d name : PositionDirection) : bool :=
  match d, name with
  | long, long | short, short => true
  | _, _ => false
  end.

#[global] Instance PositionDirection_eq_dec : EqDecision PositionDirection.
Proof. solve_decision. Defined.
#[global] Instance OrderType_eq_dec : EqDecision OrderType.
Proof. solve_decision. Defined.
#[global] Instance Order_eq_dec : EqDecision Order.
Proof. solve_decision. Defined.
#[global] Instance ClearingHouseUser_eq_dec : EqDecision ClearingHouseUser.
Proof. solve_decision. Defined.

(** ** Nodes and order lists

    A [Node] is a mutable object shared between the list that links it and
    the closures that hold it.  Nodes live in a store and are named by
    their reference; the chain [head], [head.next], ... of an [OrderList]
    is the list of references in chain order. *)
Definition NodeRef : Type := nat.

Record Node := {
  order : Order;
  userAccount : PublicKey;
  userOrdersAccount : PublicKey;
  haveFilled : bool
}.

Definition OrderList : Type := list NodeRef.

Inductive ListType := fixed | floating.
Inductive Role := BidDesc | AskAsc | MarkDesc | MarkAsc.

(** [{bid: {desc}, ask: {asc}, mark: {desc, asc}}] *)
Record RoleLists := {
  bid_desc : OrderList;
  ask_asc : OrderList;
  mark_desc : OrderList;
  mark_asc : OrderList
}.

Record DLOBOrderLists := {
  lists_fixed : RoleLists;
  lists_floating : RoleLists
}.

Definition OraclePriceData : Type := Z.

(** ** Collaborators

    Everything [index.ts] imports and calls but does not define: the SDK,
    the ledger connection, and the members of the book's classes that the
    design leaves open.  The development is parametric in them. *)
Class Collaborators := {
  (* ClearingHouseUser accessors (polled account data) *)
  getMarginRatio : ClearingHouseUser -> Z;
  getFreeCollateral : ClearingHouseUser -> Z;
  getUserOrdersAccount : ClearingHouseUser -> option UserOrdersAccount;
  getUserAccount : ClearingHouseUser -> UserAccount;
  user_getUserAccountPublicKey : ClearingHouseUser -> PublicKey;
  user_getUserOrdersAccountPublicKey : ClearingHouseUser -> PublicKey;
  (* SDK helpers *)
  isOrderRiskIncreasing : ClearingHouseUser -> Order -> bool;
  isOrderReduceOnly : ClearingHouseUser -> Order -> bool;
  (* [None]: [BN.toNumber] throws *)
  convertToNumber : Z -> Z -> option JsNumber.number;
  calculateAskPrice : Market -> Z;
  calculateMarkPrice : Market -> Z;
  calculateBidPrice : Market -> Z;
  calculateOracleSpread : Z -> OraclePriceData -> Z;
  isOracleValid : Market -> OraclePriceData -> bool;
  calculateBaseAssetAmountMarketCanExecute :
    Market -> Order -> OraclePriceData -> Z;
  calculateBaseAssetAmountUserCanExecute :
    Market -> Order -> ClearingHouseUser -> Z;
  (* ledger; [inl] and [Some]: the call throws or its promise rejects *)
  getUserOrdersAccountPublicKey : PublicKey -> Error + PublicKey;
  program_account_user_all : Error + list (ProgramAccount UserAccount);
  program_account_user_fetch : PublicKey -> Error + UserAccount;
  bulkPollingUserSubscribe : list ClearingHouseUser -> option Error;
  user_subscribe : ClearingHouseUser -> option Error;
  (* the order history account as seen at the n-th resumption of the
     draining loop *)
  getOrderHistoryAccount : nat -> OrderHistoryAccount;
  getMarket : Z -> option Market;
  getOraclePriceData : PublicKey -> option OraclePriceData;
  (* ./error *)
  getErrorCode : Error -> option Z;
  (* ./dlob/OrderList *)
  pricesCross : Node -> Z -> bool;
  (* ./dlob/DLOB: which of the four role lists an order rests in *)
  roleOf : Order -> Role
}.

Abbreviation Heap := (gmap NodeRef Node).

(** ** The book *)

(** Modelled from the spec: the classes [DLOB] and [OrderList] of
    [./dlob/DLOB] and [./dlob/OrderList], which [index.ts] imports and uses
    through [insert], [remove], [update], [enable], [disable],
    [getOrderLists], [openOrders] and [orderLists].  The definitions of
    this module follow the design document's description of them (data
    model, section 3, and operations, sections 4.1 and 4.2). *)
Module DLOB.

(** Modelled from the spec: the Book is a mapping from market identifier
    to its eight order lists plus the set of tracked order identifiers;
    a tracked identifier is either linked in a list or disabled (removed
    from the active lists, retained for re-enabling).  [arrivals] numbers
    the nodes in arrival order. *)
Record t := {
  openOrders : gset Z;
  orderLists : gmap Z DLOBOrderLists;
  disabled : gmap Z NodeRef;
  arrivals : NodeRef
}.

Definition empty : t :=
  {| openOrders := ∅; orderLists := ∅; disabled := ∅; arrivals := 0%nat |}.

Definition emptyRoleLists : RoleLists :=
  {| bid_desc := []; ask_asc := []; mark_desc := []; mark_asc := [] |}.

Definition emptyOrderLists : DLOBOrderLists :=
  {| lists_fixed := emptyRoleLists; lists_floating := emptyRoleLists |}.

Definition getRole (r : Role) (ls : RoleLists) : OrderList :=
  match r with
  | BidDesc => bid_desc ls
  | AskAsc => ask_asc ls
  | MarkDesc => mark_desc ls
  | MarkAsc => mark_asc ls
  end.

Definition setRole (r : Role) (l : OrderList) (ls : RoleLists) : RoleLists :=
  match r with
  | BidDesc => {| bid_desc := l; ask_asc := ask_asc ls;
                  mark_desc := mark_desc ls; mark_asc := mark_asc ls |}
  | AskAsc => {| bid_desc := bid_desc ls; ask_asc := l;
                 mark_desc := mark_desc ls; mark_asc := mark_asc ls |}
  | MarkDesc => {| bid_desc := bid_desc ls; ask_asc := ask_asc ls;
                   mark_desc := l; mark_asc := mark_asc ls |}
  | MarkAsc => {| bid_desc := bid_desc ls; ask_asc := ask_asc ls;
                  mark_desc := mark_desc ls; mark_asc := l |}
  end.

Definition getType (ty : ListType) (m : DLOBOrderLists) : RoleLists :=
  match ty with
  | fixed => lists_fixed m
  | floating => lists_floating m
  end.

Definition setType (ty : ListType) (ls : RoleLists) (m : DLOBOrderLists)
  : DLOBOrderLists :=
  match ty with
  | fixed => {| lists_fixed := ls; lists_floating := lists_floating m |}
  | floating => {| lists_fixed := lists_fixed m; lists_floating := ls |}
  end.

Definition allRoles (ls : RoleLists) : list NodeRef :=
  bid_desc ls ++ ask_asc ls ++ mark_desc ls ++ mark_asc ls.

Definition allRefs (m : DLOBOrderLists) : list NodeRef :=
  allRoles (lists_fixed m) ++ allRoles (lists_floating m).

(** Modelled from the spec: the pricing mode of an order is floating
    when it carries a non-zero oracle offset, fixed otherwise. *)
Definition listTypeOf (o : Order) : ListType :=
  if oraclePriceOffset o =? ZERO then fixed else floating.

(** Modelled from the spec: a fixed-mode order is priced in absolute
    terms, a floating-mode order as an offset from the oracle price. *)
Definition sortPrice (ty : ListType) (o : Order) : Z :=
  match ty with
  | fixed => price o
  | floating => oraclePriceOffset o
  end.

Definition descending (r : Role) : bool :=
  match r with
  | BidDesc | MarkDesc => true
  | AskAsc | MarkAsc => false
  end.

(** Modelled from the spec: the ordering key of a list is the price
    (ascending for asks, descending for bids), then the arrival time,
    earlier first. *)
Definition precedes (ty : ListType) (r : Role)
    (a b : NodeRef * Order) : bool :=
  let pa := sortPrice ty a.2 in
  let pb := sortPrice ty b.2 in
  if pa =? pb then (a.1 <? b.1)%nat
  else if descending r then pb <? pa else pa <? pb.

(** Modelled from the spec: [OrderList.insert], a sorted insertion by
    (price, arrival time) in the list's direction. *)
Fixpoint insertNode (h : Heap) (ty : ListType) (r : Role)
    (ref : NodeRef) (o : Order) (l : OrderList) : OrderList :=
  match l with
  | [] => [ref]
  | x :: rest =>
      match h !! x with
      | Some nx =>
          if precedes ty r (ref, o) (x, order nx) then ref :: l
          else x :: insertNode h ty r ref o rest
      | None => x :: insertNode h ty r ref o rest
      end
  end.

Definition nodeHasId (h : Heap) (id : Z) (ref : NodeRef) : bool :=
  match h !! ref with
  | Some n => orderId (order n) =? id
  | None => false
  end.

(** Modelled from the spec: [OrderList.remove] deletes by identifier and
    is a no-op when the identifier is absent. *)
Definition unlink (h : Heap) (id : Z) (l : OrderList) : OrderList :=
  List.filter (fun ref => negb (nodeHasId h id ref)) l.

Definition unlinkRoles (h : Heap) (id : Z) (ls : RoleLists) : RoleLists :=
  {| bid_desc := unlink h id (bid_desc ls);
     ask_asc := unlink h id (ask_asc ls);
     mark_desc := unlink h id (mark_desc ls);
     mark_asc := unlink h id (mark_asc ls) |}.

Definition unlinkAll (h : Heap) (id : Z) (m : DLOBOrderLists)
  : DLOBOrderLists :=
  {| lists_fixed := unlinkRoles h id (lists_fixed m);
     lists_floating := unlinkRoles h id (lists_floating m) |}.

Section WithCollaborators.
Context `{Collaborators}.

(** Links node [ref], holding order [o], into the list of its pricing
    mode and role. *)
Definition link (h : Heap) (ref : NodeRef) (o : Order)
    (m : DLOBOrderLists) : DLOBOrderLists :=
  let ty := listTypeOf o in
  let r := roleOf o in
  let ls := getType ty m in
  setType ty (setRole r (insertNode h ty r ref o (getRole r ls)) ls) m.

(** Modelled from the spec: [insert] computes the pricing mode and role
    list, delegates to the sorted insertion, records the identifier in
    the tracked set, and does nothing if the identifier is already
    tracked.  A market that has no lists yet starts from empty ones.  The
    boolean tells whether the book was mutated, that is whether the
    caller's callback runs. *)
Definition insert (o : Order) (ua uoa : PublicKey) (h : Heap) (b : t)
  : Heap * t * bool :=
  if decide (orderId o ∈ openOrders b) then (h, b, false)
  else
    let ref := arrivals b in
    let n := {| order := o; userAccount := ua;
                userOrdersAccount := uoa; haveFilled := false |} in
    let h' := <[ref := n]> h in
    let m := default emptyOrderLists (orderLists b !! marketIndex o) in
    (h',
     {| openOrders := {[orderId o]} ∪ openOrders b;
        orderLists := <[marketIndex o := link h' ref o m]> (orderLists b);
        disabled := disabled b;
        arrivals := S ref |},
     true).

(** Modelled from the spec: [remove] deletes the identifier from
    whichever list holds it and drops it from the tracked set; it is a
    no-op when the identifier is not tracked. *)
Definition remove (o : Order) (h : Heap) (b : t) : t * bool :=
  if decide (orderId o ∈ openOrders b) then
    ({| openOrders := openOrders b ∖ {[orderId o]};
        orderLists := unlinkAll h (orderId o) <$> orderLists b;
        disabled := delete (orderId o) (disabled b);
        arrivals := arrivals b |},
     true)
  else (b, false).

(** The nodes the book holds for identifier [id]: linked in the lists
    of market [mi], or disabled. *)
Definition nodesOf (h : Heap) (mi id : Z) (b : t) : list NodeRef :=
  List.filter (nodeHasId h id)
    (from_option allRefs [] (orderLists b !! mi)
     ++ from_option (fun ref => [ref]) [] (disabled b !! id)).

Definition setFilled (filled : Z) (n : Node) : Node :=
  let o := order n in
  {| order := {| orderId := orderId o; marketIndex := marketIndex o;
                 direction := direction o; orderType := orderType o;
                 price := price o;
                 oraclePriceOffset := oraclePriceOffset o;
                 reduceOnly := reduceOnly o; postOnly := postOnly o;
                 baseAssetAmount := baseAssetAmount o;
                 baseAssetAmountFilled := filled |};
     userAccount := userAccount n;
     userOrdersAccount := userOrdersAccount n;
     haveFilled := haveFilled n |}.

(** Modelled from the spec: [update] (partial fill) mutates the
    filled-size field of the existing node in place and does not
    reposition it. *)
Definition update (o : Order) (h : Heap) (b : t) : Heap * bool :=
  let refs := nodesOf h (marketIndex o) (orderId o) b in
  (foldr (fun ref h' => alter (setFilled (baseAssetAmountFilled o)) ref h')
         h refs,
   match refs with [] => false | _ => true end).

(** Modelled from the spec: [disable] moves a tracked order from its
    list to "tracked but inactive". *)
Definition disable (o : Order) (h : Heap) (b : t) : t * bool :=
  match
    List.filter (nodeHasId h (orderId o))
      (from_option allRefs [] (orderLists b !! marketIndex o))
  with
  | ref :: _ =>
      if decide (orderId o ∈ openOrders b) then
        ({| openOrders := openOrders b;
            orderLists := unlinkAll h (orderId o) <$> orderLists b;
            disabled := <[orderId o := ref]> (disabled b);
            arrivals := arrivals b |},
         true)
      else (b, false)
  | [] => (b, false)
  end.

(** Modelled from the spec: [enable] moves a disabled order back into
    its list, at the position its price and arrival time give it; it
    is idempotent on an order that is already active. *)
Definition enable (o : Order) (ua uoa : PublicKey) (h : Heap) (b : t)
  : t * bool :=
  match disabled b !! orderId o with
  | Some ref =>
      match h !! ref with
      | Some n =>
          let mi := marketIndex (order n) in
          let m := default emptyOrderLists (orderLists b !! mi) in
          ({| openOrders := openOrders b;
              orderLists := <[mi := link h ref (order n) m]> (orderLists b);
              disabled := delete (orderId o) (disabled b);
              arrivals := arrivals b |},
           true)
      | None => (b, false)
      end
  | None => (b, false)
  end.

(** [getOrderLists(marketIndex, type)]; [None] when the market has no
    lists, where the member access on [undefined] throws. *)
Definition getOrderLists (mi : Z) (ty : ListType) (b : t)
  : option RoleLists :=
  getType ty <$> orderLists b !! mi.

End WithCollaborators.

(** Some list of some market links a node that holds the order. *)
Definition linked (h : Heap) (id : Z) (b : t) : Prop :=
  ∃ mi m ref, orderLists b !! mi = Some m ∧ ref ∈ allRefs m
              ∧ nodeHasId h id ref = true.

End DLOB.

(** ** The state of the bot

    The variables [runBot] closes over, the node objects, and the calls
    made on collaborators that later properties speak about. *)
Record MapValue := {
  user : ClearingHouseUser;
  upToDate : bool
}.

(** The arguments of one [clearingHouse.fillOrder] call, with the node and
    the user handle its [.catch] closure captures. *)
Record FillAttempt := {
  fill_node : NodeRef;
  fill_user : ClearingHouseUser;
  fill_userAccount : PublicKey;
  fill_userOrdersAccount : PublicKey;
  fill_order : Order
}.

(** The lines written by [console.log]; each constructor stands for one
    message template and carries the values interpolated into it.
    [LogTopOfOrderLists] abbreviates the table [printTopOfOrderLists]
    prints. *)
Inductive LogLine :=
| LogTooMuchLeverage (id : Z)
| LogRiskIncreasingButReduceOnly (id : Z)
| LogNoCollateral (id : Z) (auth : PublicKey)
| LogEnabling (id : Z)
| LogPlaced (id : Z)
| LogCanceled (id : Z)
| LogExpired (id : Z)
| LogCompletelyFilled (id : Z)
| LogPartiallyFilled (id : Z)
| LogUnexpectedErrorInUpdateOrderList (e : Error)
| LogUserNotFoundAddingBeforeFilling (pk : PublicKey)
| LogUserNotFoundAdding (pk : PublicKey)
| LogOracleInvalid (mi : Z)
| LogTryingToFill (pk : PublicKey) (id : Z)
| LogFilled (pk : PublicKey) (id : Z)
| LogErrorFilling (pk : PublicKey) (id : Z)
| LogOrderNotFound (id : Z)
| LogUnexpectedErrorForMarket (mi : Z) (e : Error)
| LogTopOfOrderLists (mi : Z).

Record World := {
  dlob : DLOB.t;
  heap : Heap;
  userMap : gmap string MapValue;
  nextOrderHistoryIndex : JsIndex;
  updateOrderListMutex : Z;
  perMarketMutex : gmap Z Z;
  console : list LogLine;
  (* [processUser(user)] calls, one monitoring loop each *)
  processUsers : list ClearingHouseUser;
  (* [clearingHouse.fillOrder] calls *)
  fillOrders : list FillAttempt;
  (* [user.fetchAccounts()] calls *)
  fetchAccounts : list ClearingHouseUser;
  (* how often the draining loop has read the order history account *)
  resumptions : nat;
  (* the log indices whose [handleOrderRecord] call has returned *)
  applied : list JsIndex
}.

Definition set_dlob (f : DLOB.t -> DLOB.t) (w : World) : World :=
  {| dlob := f (dlob w); heap := heap w; userMap := userMap w;
     nextOrderHistoryIndex := nextOrderHistoryIndex w;
     updateOrderListMutex := updateOrderListMutex w;
     perMarketMutex := perMarketMutex w; console := console w;
     processUsers := processUsers w; fillOrders := fillOrders w;
     fetchAccounts := fetchAccounts w; resumptions := resumptions w;
     applied := applied w |}.

Definition set_heap (f : Heap -> Heap) (w : World) : World :=
  {| dlob := dlob w; heap := f (heap w); userMap := userMap w;
     nextOrderHistoryIndex := nextOrderHistoryIndex w;
     updateOrderListMutex := updateOrderListMutex w;
     perMarketMutex := perMarketMutex w; console := console w;
     processUsers := processUsers w; fillOrders := fillOrders w;
     fetchAccounts := fetchAccounts w; resumptions := resumptions w;
     applied := applied w |}.

Definition set_userMap (f : gmap string MapValue -> gmap string MapValue) (w : World) : World :=
  {| dlob := dlob w; heap := heap w; userMap := f (userMap w);
     nextOrderHistoryIndex := nextOrderHistoryIndex w;
     updateOrderListMutex := updateOrderListMutex w;
     perMarketMutex := perMarketMutex w; console := console w;
     processUsers := processUsers w; fillOrders := fillOrders w;
     fetchAccounts := fetchAccounts w; resumptions := resumptions w;
     applied := applied w |}.

Definition set_nextOrderHistoryIndex (f : JsIndex -> JsIndex) (w : World) : World :=
  {| dlob := dlob w; heap := heap w; userMap := userMap w;
     nextOrderHistoryIndex := f (nextOrderHistoryIndex w);
     updateOrderListMutex := updateOrderListMutex w;
     perMarketMutex := perMarketMutex w; console := console w;
     processUsers := processUsers w; fillOrders := fillOrders w;
     fetchAccounts := fetchAccounts w; resumptions := resumptions w;
     applied := applied w |}.

Definition set_updateOrderListMutex (f : Z -> Z) (w : World) : World :=
  {| dlob := dlob w; heap := heap w; userMap := userMap w;
     nextOrderHistoryIndex := nextOrderHistoryIndex w;
     updateOrderListMutex := f (updateOrderListMutex w);
     perMarketMutex := perMarketMutex w; console := console w;
     processUsers := processUsers w; fillOrders := fillOrders w;
     fetchAccounts := fetchAccounts w; resumptions := resumptions w;
     applied := applied w |}.

Definition set_perMarketMutex (f : gmap Z Z -> gmap Z Z) (w : World) : World :=
  {| dlob := dlob w; heap := heap w; userMap := userMap w;
     nextOrderHistoryIndex := nextOrderHistoryIndex w;
     updateOrderListMutex := updateOrderListMutex w;
     perMarketMutex := f (perMarketMutex w); console := console w;
     processUsers := processUsers w; fillOrders := fillOrders w;
     fetchAccounts := fetchAccounts w; resumptions := resumptions w;
     applied := applied w |}.

Definition set_console (f : list LogLine -> list LogLine) (w : World) : World :=
  {| dlob := dlob w; heap := heap w; userMap := userMap w;
     nextOrderHistoryIndex := nextOrderHistoryIndex w;
     updateOrderListMutex := updateOrderListMutex w;
     perMarketMutex := perMarketMutex w; console := f (console w);
     processUsers := processUsers w; fillOrders := fillOrders w;
     fetchAccounts := fetchAccounts w; resumptions := resumptions w;
     applied := applied w |}.

Definition set_processUsers (f : list ClearingHouseUser -> list ClearingHouseUser) (w : World) : World :=
  {| dlob := dlob w; heap := heap w; userMap := userMap w;
     nextOrderHistoryIndex := nextOrderHistoryIndex w;
     updateOrderListMutex := updateOrderListMutex w;
     perMarketMutex := perMarketMutex w; console := console w;
     processUsers := f (processUsers w); fillOrders := fillOrders w;
     fetchAccounts := fetchAccounts w; resumptions := resumptions w;
     applied := applied w |}.

Definition set_fillOrders (f : list FillAttempt -> list FillAttempt) (w : World) : World :=
  {| dlob := dlob w; heap := heap w; userMap := userMap w;
     nextOrderHistoryIndex := nextOrderHistoryIndex w;
     updateOrderListMutex := updateOrderListMutex w;
     perMarketMutex := perMarketMutex w; console := console w;
     processUsers := processUsers w; fillOrders := f (fillOrders w);
     fetchAccounts := fetchAccounts w; resumptions := resumptions w;
     applied := applied w |}.

Definition set_fetchAccounts (f : list ClearingHouseUser -> list ClearingHouseUser) (w : World) : World :=
  {| dlob := dlob w; heap := heap w; userMap := userMap w;
     nextOrderHistoryIndex := nextOrderHistoryIndex w;
     updateOrderListMutex := updateOrderListMutex w;
     perMarketMutex := perMarketMutex w; console := console w;
     processUsers := processUsers w; fillOrders := fillOrders w;
     fetchAccounts := f (fetchAccounts w); resumptions := resumptions w;
     applied := applied w |}.

Definition set_resumptions (f : nat -> nat) (w : World) : World :=
  {| dlob := dlob w; heap := heap w; userMap := userMap w;
     nextOrderHistoryIndex := nextOrderHistoryIndex w;
     updateOrderListMutex := updateOrderListMutex w;
     perMarketMutex := perMarketMutex w; console := console w;
     processUsers := processUsers w; fillOrders := fillOrders w;
     fetchAccounts := fetchAccounts w; resumptions := f (resumptions w);
     applied := applied w |}.

Definition set_applied (f : list JsIndex -> list JsIndex) (w : World) : World :=
  {| dlob := dlob w; heap := heap w; userMap := userMap w;
     nextOrderHistoryIndex := nextOrderHistoryIndex w;
     updateOrderListMutex := updateOrderListMutex w;
     perMarketMutex := perMarketMutex w; console := console w;
     processUsers := processUsers w; fillOrders := fillOrders w;
     fetchAccounts := fetchAccounts w; resumptions := resumptions w;
     applied := f (applied w) |}.

(** ** Effects

    A computation reads and writes the [World] and either returns, throws
    (a rejected [await] counts as a throw), or fails to come back, which is
    what a loop out of fuel stands for.  Each closure is run from its first
    statement to its last; what other closures may do while one is
    suspended in an [await] is accounted for where a property depends on
    it: the order history account is read anew at each resumption of the
    draining loop, and passes that overlap are the subject of [Passes]
    below. *)
Inductive Outcome (A : Type) :=
| Return (a : A)
| Throw (e : Error)
| Diverge.
Arguments Return {A} a.
Arguments Throw {A} e.
Arguments Diverge {A}.

Definition M (A : Type) : Type := World -> Outcome A * World.

#[global] Instance M_ret : MRet M := fun A a w => (Return a, w).

#[global] Instance M_bind : MBind M := fun A B k c w =>
  match c w with
  | (Return a, w') => k a w'
  | (Throw e, w') => (Throw e, w')
  | (Diverge, w') => (Diverge, w')
  end.

Definition throw {A} (e : Error) : M A := fun w => (Throw e, w).
Definition diverge {A} : M A := fun w => (Diverge, w).
Definition get : M World := fun w => (Return w, w).
Definition gets {A} (f : World -> A) : M A := fun w => (Return (f w), w).
Definition modify (f : World -> World) : M unit := fun w => (Return tt, f w).

(** [try { body } catch (e) { handler } finally { finalizer }] *)
Definition try_catch_finally (body : M unit) (handler : Error -> M unit)
    (finalizer : M unit) : M unit := fun w =>
  match body w with
  | (Return _, w1) => finalizer w1
  | (Throw e, w1) =>
      match handler e w1 with
      | (Return _, w2) => finalizer w2
      | (Throw e', w2) => (finalizer ≫= fun _ => throw e') w2
      | (Diverge, w2) => (Diverge, w2)
      end
  | (Diverge, w1) => (Diverge, w1)
  end.

(** The result of an awaited or throwing collaborator call. *)
Definition await {A} (r : Error + A) : M A :=
  match r with
  | inl e => throw e
  | inr a => mret a
  end.

Definition awaitVoid (r : option Error) : M unit :=
  match r with
  | Some e => throw e
  | None => mret tt
  end.

Definition TypeError : Error :=
  {| message := "TypeError: Cannot read properties of undefined" |}.

Definition RangeError : Error :=
  {| message := "Number can only safely store up to 53 bits" |}.

(** Reading a member of [x] throws when [x] is [undefined]. *)
Definition defined {A} (x : option A) : M A :=
  match x with
  | Some a => mret a
  | None => throw TypeError
  end.

Definition console_log (l : LogLine) : M unit :=
  modify (set_console (fun c => c ++ [l])).

(** Reading the fields of a node object through its reference. *)
Definition deref (ref : NodeRef) : M Node :=
  w ← get; defined (heap w !! ref).

(** The integer held by a [BN], as the SDK's [convertToNumber] turns it
    into a number: [x.div(p).toNumber() + x.mod(p).toNumber() /
    p.toNumber()], where [toNumber] throws beyond 53 bits. *)
Definition BN_toNumber (x : Z) : option JsNumber.number :=
  if Z.log2 (Z.abs x) <? 53 then Some (JsNumber.ofZ x) else None.

Definition sdk_convertToNumber (x p : Z) : option JsNumber.number :=
  q ← BN_toNumber (Z.quot x p);
  r ← BN_toNumber (Z.rem x p);
  d ← BN_toNumber p;
  Some (JsNumber.add q (JsNumber.div r d)).

(** [for (const x of xs) { body }]; [continue] is the body returning. *)
Fixpoint for_of {A} (xs : list A) (body : A -> M unit) : M unit :=
  match xs with
  | [] => mret tt
  | x :: rest => body x;; for_of rest body
  end.

(** [xs[i]] on a JS array: [undefined] outside [0 .. length - 1]. *)
Definition array_get {A} (xs : list A) (i : JsIndex) : option A :=
  match i with
  | Num z => if z <? 0 then None else xs !! Z.to_nat z
  | NaN => None
  end.

(** The outcome of the [if / else if] chain of [updateUserOrders]. *)
Inductive Verdict :=
| DisableTooMuchLeverage
| DisableReduceOnlyMismatch
| DisableNoCollateral
| EnableOrder.

#[global] Instance Verdict_eq_dec : EqDecision Verdict.
Proof. solve_decision. Defined.

Definition setHaveFilled (b : bool) (n : Node) : Node :=
  {| order := order n; userAccount := userAccount n;
     userOrdersAccount := userOrdersAccount n; haveFilled := b |}.

(** ** The closures of [runBot] *)
Section Bot.
Context `{Collaborators}.

(** The book's operations on the bot's [dlob]; the callback runs when
    the book was mutated. *)
Definition dlob_insert (o : Order) (ua uoa : PublicKey)
    (onInsert : M unit) : M unit :=
  w ← get;
  let '(h, b, mutated) := DLOB.insert o ua uoa (heap w) (dlob w) in
  modify (fun w => set_heap (fun _ => h) (set_dlob (fun _ => b) w));;
  if mutated : bool then onInsert else mret tt.

Definition dlob_remove (o : Order) (onRemove : M unit) : M unit :=
  w ← get;
  let '(b, mutated) := DLOB.remove o (heap w) (dlob w) in
  modify (set_dlob (fun _ => b));;
  if mutated : bool then onRemove else mret tt.

Definition dlob_update (o : Order) (onUpdate : M unit) : M unit :=
  w ← get;
  let '(h, mutated) := DLOB.update o (heap w) (dlob w) in
  modify (set_heap (fun _ => h));;
  if mutated : bool then onUpdate else mret tt.

Definition dlob_disable (o : Order) (onDisable : M unit) : M unit :=
  w ← get;
  let '(b, mutated) := DLOB.disable o (heap w) (dlob w) in
  modify (set_dlob (fun _ => b));;
  if mutated : bool then onDisable else mret tt.

Definition dlob_enable (o : Order) (ua uoa : PublicKey)
    (onEnable : M unit) : M unit :=
  w ← get;
  let '(b, mutated) := DLOB.enable o ua uoa (heap w) (dlob w) in
  modify (set_dlob (fun _ => b));;
  if mutated : bool then onEnable else mret tt.

(** [printTopOfOrderLists(dlob.orderLists.get(marketIndex))]: reads the
    lists, the market and its oracle subscriber, and throws when one of
    them is [undefined]. *)
Definition printTopOfOrderLists (marketIndex : Z) : M unit :=
  w ← get;
  _ ← defined (DLOB.orderLists (dlob w) !! marketIndex);
  market ← defined (getMarket marketIndex);
  _ ← defined (getOraclePriceData (market_oracle market));
  console_log (LogTopOfOrderLists marketIndex).

(** *** [updateUserOrders] *)
Definition orderVerdict (user : ClearingHouseUser) (tooMuchLeverage : bool)
    (order : Order) : Verdict :=
  let orderIsRiskIncreasing := isOrderRiskIncreasing user order in
  let orderIsReduceOnly := isOrderReduceOnly user order in
  if tooMuchLeverage && orderIsRiskIncreasing then DisableTooMuchLeverage
  else if negb orderIsReduceOnly && reduceOnly order
       then DisableReduceOnlyMismatch
  else if collateral (getUserAccount user) =? ZERO then DisableNoCollateral
  else EnableOrder.

Definition updateUserOrders_order (user : ClearingHouseUser)
    (userAccountPublicKey userOrdersAccountPublicKey : PublicKey)
    (tooMuchLeverage : bool) (order : Order) : M unit :=
  match orderVerdict user tooMuchLeverage order with
  | DisableTooMuchLeverage =>
      dlob_disable order
        (console_log (LogTooMuchLeverage (orderId order));;
         printTopOfOrderLists (marketIndex order))
  | DisableReduceOnlyMismatch =>
      dlob_disable order
        (console_log (LogRiskIncreasingButReduceOnly (orderId order));;
         printTopOfOrderLists (marketIndex order))
  | DisableNoCollateral =>
      dlob_disable order
        (console_log (LogNoCollateral (orderId order) (authority user));;
         printTopOfOrderLists (marketIndex order))
  | EnableOrder =>
      dlob_enable order userAccountPublicKey userOrdersAccountPublicKey
        (console_log (LogEnabling (orderId order));;
         printTopOfOrderLists (marketIndex order))
  end.

Definition updateUserOrders (user : ClearingHouseUser)
    (userAccountPublicKey userOrdersAccountPublicKey : PublicKey) : M Z :=
  let marginRatio := getMarginRatio user in
  let tooMuchLeverage := getFreeCollateral user =? ZERO in
  match getUserOrdersAccount user with
  | Some userOrdersAccount =>
      for_of (orders userOrdersAccount)
        (updateUserOrders_order user userAccountPublicKey
           userOrdersAccountPublicKey tooMuchLeverage)
  | None => mret tt
  end;;
  mret marginRatio.

(** *** [processUser]

    One turn of the [while (true)] loop; the value returned is the
    argument of [sleep]. *)
Definition sleepTimeOf (marginRatioNumber : JsNumber.number)
  : JsNumber.number :=
  let oneMinute := JsNumber.mul (JsNumber.ofZ 1000) (JsNumber.ofZ 60) in
  JsNumber.Math_min
    (JsNumber.pow2
       (JsNumber.Math_round
          (JsNumber.mul marginRatioNumber (JsNumber.ofZ 100))))
    oneMinute.

Definition processUser_cycle (user : ClearingHouseUser) : M JsNumber.number :=
  let userAccountPublicKey := user_getUserAccountPublicKey user in
  let userOrdersAccountPublicKey := user_getUserOrdersAccountPublicKey user in
  marginRatio ← updateUserOrders user userAccountPublicKey
                   userOrdersAccountPublicKey;
  match convertToNumber marginRatio TEN_THOUSAND with
  | Some marginRatioNumber => mret (sleepTimeOf marginRatioNumber)
  | None => throw RangeError
  end.

(** The call [processUser(user)] is not awaited: it starts the user's
    monitoring loop and returns. *)
Definition processUser (user : ClearingHouseUser) : M unit :=
  modify (set_processUsers (fun l => l ++ [user])).

(** The handler [processUser] registers for ['userPositionsData']. *)
Definition processUser_onUserPositionsData (user : ClearingHouseUser)
  : M unit :=
  let userAccountPublicKey := user_getUserAccountPublicKey user in
  let userOrdersAccountPublicKey := user_getUserOrdersAccountPublicKey user in
  _ ← updateUserOrders user userAccountPublicKey userOrdersAccountPublicKey;
  modify (set_userMap
            (insert userAccountPublicKey {| user := user; upToDate := true |})).

(** *** [fetchAllUsers] *)
Fixpoint fetchAllUsers_collect (um : gmap string MapValue)
    (programUserAccounts : list (ProgramAccount UserAccount))
    (userArray : list ClearingHouseUser) : list ClearingHouseUser :=
  match programUserAccounts with
  | [] => userArray
  | programUserAccount :: rest =>
      let userAccountPubkey := publicKey programUserAccount in
      if collateral (account programUserAccount) <? QUOTE_PRECISION
      then fetchAllUsers_collect um rest userArray
      else if bool_decide (is_Some (um !! userAccountPubkey))
      then fetchAllUsers_collect um rest userArray
      else
        let user :=
          {| authority := account_authority (account programUserAccount) |}
        in
        fetchAllUsers_collect um rest (userArray ++ [user])
  end.

Definition fetchAllUsers_register (user : ClearingHouseUser) : M unit :=
  let userAccountPubkey := user_getUserAccountPublicKey user in
  modify (set_userMap
            (insert userAccountPubkey {| user := user; upToDate := true |}));;
  processUser user.

Definition fetchAllUsers : M unit :=
  programUserAccounts ← await program_account_user_all;
  w ← get;
  let userArray :=
    fetchAllUsers_collect (userMap w) programUserAccounts [] in
  awaitVoid (bulkPollingUserSubscribe userArray);;
  for_of userArray fetchAllUsers_register.

(** *** The initial load of [runBot] (lines 127-137) *)
Definition runBot_loadOrders
    (programAccounts : list (ProgramAccount UserOrdersAccount)) : M unit :=
  for_of programAccounts (fun programAccount =>
    let userOrderAccountPublicKey := publicKey programAccount in
    let userOrdersAccount := account programAccount in
    let userAccountPublicKey := orders_user userOrdersAccount in
    for_of (orders userOrdersAccount) (fun order =>
      dlob_insert order userAccountPublicKey userOrderAccountPublicKey
        (mret tt))).

(** *** [handleOrderRecord] *)
Definition handleOrderRecord (record : option OrderRecord) : M unit :=
  record ← defined record;
  let order := record_order record in
  if isVariant_orderType (orderType order) market then mret tt
  else
    match record_action record with
    | place =>
        userOrdersAccountPublicKey ←
          await (getUserOrdersAccountPublicKey (record_user record));
        dlob_insert order (record_user record) userOrdersAccountPublicKey
          (console_log (LogPlaced (orderId order)))
    | cancel => dlob_remove order (console_log (LogCanceled (orderId order)))
    | expire => dlob_remove order (console_log (LogExpired (orderId order)))
    | fill =>
        if baseAssetAmount order =? baseAssetAmountFilled order
        then dlob_remove order
               (console_log (LogCompletelyFilled (orderId order)))
        else dlob_update order
               (console_log (LogPartiallyFilled (orderId order)))
    end;;
    printTopOfOrderLists (marketIndex order).

(** *** [updateOrderList] *)
Definition readOrderHistoryAccount : M OrderHistoryAccount :=
  gets (fun w => getOrderHistoryAccount (resumptions w)).

(** The [while (nextOrderHistoryIndex !== head)] loop.  [head] is the
    value read at the end of the previous turn; the account read for the
    record is the one that head came from, and the [await] lets the
    account change before the head is read again. *)
Fixpoint updateOrderList_loop (fuel : nat) (orderHistoryLength head : Z)
  : M unit :=
  match fuel with
  | O => diverge
  | S fuel' =>
      w ← get;
      if JsIndex_strict_ne (nextOrderHistoryIndex w) head then
        acct ← readOrderHistoryAccount;
        let nextRecord :=
          array_get (orderRecords acct) (nextOrderHistoryIndex w) in
        handleOrderRecord nextRecord;;
        modify (set_resumptions S);;
        modify (set_applied (fun l => l ++ [nextOrderHistoryIndex w]));;
        modify (set_nextOrderHistoryIndex
                  (fun i => JsIndex_succ_mod i orderHistoryLength));;
        acct' ← readOrderHistoryAccount;
        updateOrderList_loop fuel' orderHistoryLength (history_head acct')
      else mret tt
  end.

Definition updateOrderList (fuel : nat) : M unit :=
  w ← get;
  if updateOrderListMutex w =? 1 then mret tt
  else
    modify (set_updateOrderListMutex (fun _ => 1));;
    try_catch_finally
      (acct ← readOrderHistoryAccount;
       let head := history_head acct in
       let orderHistoryLength := Z.of_nat (length (orderRecords acct)) in
       updateOrderList_loop fuel orderHistoryLength head)
      (fun e => console_log (LogUnexpectedErrorInUpdateOrderList e))
      (modify (set_updateOrderListMutex (fun _ => 0))).

End Bot.

Section Filler.
Context `{Collaborators}.

(** *** [fetchUserAndAddToUserMap] *)
Definition fetchUserAndAddToUserMap (userAccountPublicKey : PublicKey)
  : M MapValue :=
  userAccount ← await (program_account_user_fetch userAccountPublicKey);
  let user := {| authority := account_authority userAccount |} in
  awaitVoid (user_subscribe user);;
  processUser user;;
  let mapValue := {| user := user; upToDate := true |} in
  modify (set_userMap (insert userAccountPublicKey mapValue));;
  mret mapValue.

(** *** [findNodesToFill]

    [node] is the argument of the function, the head the scan started
    from; [chain] is [currentNode], [currentNode.next], ... *)

(** Lines 494-504: the user lookup and the push. *)
Definition findNodesToFill_push (node currentNode : NodeRef)
    (nodesToFill : list NodeRef) : M (list NodeRef) :=
  first ← deref node;
  w ← get;
  mapValue ←
    match userMap w !! userAccount first with
    | Some mapValue => mret mapValue
    | None =>
        console_log (LogUserNotFoundAddingBeforeFilling (userAccount first));;
        fetchUserAndAddToUserMap (userAccount first)
    end;
  let userUpToDate := upToDate mapValue in
  current ← deref currentNode;
  if negb (haveFilled current) && userUpToDate
  then mret (nodesToFill ++ [currentNode])
  else mret nodesToFill.

Fixpoint findNodesToFill_loop (node : NodeRef) (chain : list NodeRef)
    (markPrice : Z) (nodesToFill : list NodeRef) : M (list NodeRef) :=
  match chain with
  | [] => mret nodesToFill
  | currentNode :: next =>
      current ← deref currentNode;
      if negb (pricesCross current markPrice) then mret nodesToFill
      else
        first ← deref node;
        let order := order first in
        let push :=
          nodesToFill' ← findNodesToFill_push node currentNode nodesToFill;
          findNodesToFill_loop node next markPrice nodesToFill' in
        if postOnly order && negb (oraclePriceOffset order =? ZERO) then
          if isVariant_direction (direction order) long
             && (markPrice >=? price order)
          then findNodesToFill_loop node next markPrice nodesToFill
          else if isVariant_direction (direction order) short
                  && (markPrice <=? price order)
          then findNodesToFill_loop node next markPrice nodesToFill
          else push
        else push
  end.

(** [findNodesToFill(node, markPrice)], on the chain that starts at
    [node]. *)
Definition findNodesToFill (chain : OrderList) (markPrice : Z)
  : M (list NodeRef) :=
  match chain with
  | [] => mret []
  | node :: _ => findNodesToFill_loop node chain markPrice []
  end.

Definition findNodesToFillFromOrderList (orderList : OrderList) (price : Z)
  : M (list NodeRef) :=
  match orderList with
  | [] => mret []
  | headNode :: _ =>
      first ← deref headNode;
      if pricesCross first price then findNodesToFill orderList price
      else mret []
  end.

(** *** [tryFillForMarket] *)

(** [nodesToFill.filter((nodeToFill) => !nodeToFill.haveFilled)] *)
Fixpoint unfilled (nodesToFill : list NodeRef) : M (list NodeRef) :=
  match nodesToFill with
  | [] => mret []
  | nodeToFill :: rest =>
      n ← deref nodeToFill;
      rest' ← unfilled rest;
      mret (if haveFilled n then rest' else nodeToFill :: rest')
  end.

(** One turn of the loop over [unfilledNodes] (lines 616-703). *)
Definition tryFillForMarket_dispatch (market : Market)
    (oraclePriceData : OraclePriceData) (nodeToFill : NodeRef) : M unit :=
  n ← deref nodeToFill;
  w ← get;
  match userMap w !! userAccount n with
  | None =>
      console_log (LogUserNotFoundAdding (userAccount n));;
      _ ← fetchUserAndAddToUserMap (userAccount n);
      mret tt
  | Some mapValue =>
      let user := user mapValue in
      if (isVariant_orderType (orderType (order n)) limit
          || isVariant_orderType (orderType (order n)) triggerLimit)
         && ((calculateBaseAssetAmountMarketCanExecute market (order n)
                oraclePriceData <? minimumBaseAssetTradeSize market)
             || (calculateBaseAssetAmountUserCanExecute market (order n)
                   user <? minimumBaseAssetTradeSize market))
      then mret tt
      else
        modify (set_userMap
                  (insert (userAccount n)
                     {| user := user; upToDate := false |}));;
        modify (set_heap (alter (setHaveFilled true) nodeToFill));;
        console_log (LogTryingToFill (userAccount n) (orderId (order n)));;
        modify (set_fillOrders (fun l => l ++
                  [{| fill_node := nodeToFill; fill_user := user;
                      fill_userAccount := userAccount n;
                      fill_userOrdersAccount := userOrdersAccount n;
                      fill_order := order n |}]))
  end.

(** The block guarded by [try] (lines 520-703). *)
Definition tryFillForMarket_body (marketIndex : Z) : M unit :=
  market ← defined (getMarket marketIndex);
  w ← get;
  fixedOrderLists ← defined (DLOB.getOrderLists marketIndex fixed (dlob w));
  let askPrice := calculateAskPrice market in
  let markPrice := calculateMarkPrice market in
  let bidPrice := calculateBidPrice market in
  n1 ← findNodesToFillFromOrderList (bid_desc fixedOrderLists) askPrice;
  n2 ← findNodesToFillFromOrderList (ask_asc fixedOrderLists) bidPrice;
  n3 ← findNodesToFillFromOrderList (mark_desc fixedOrderLists) markPrice;
  n4 ← findNodesToFillFromOrderList (mark_asc fixedOrderLists) markPrice;
  w ← get;
  floatingOrderLists ←
    defined (DLOB.getOrderLists marketIndex floating (dlob w));
  oraclePriceData ← defined (getOraclePriceData (market_oracle market));
  let oracleIsValid := isOracleValid market oraclePriceData in
  floatingNodes ←
    (if oracleIsValid then
       let askOracleSpread := calculateOracleSpread askPrice oraclePriceData in
       let markOracleSpread :=
         calculateOracleSpread markPrice oraclePriceData in
       let bidOracleSpread := calculateOracleSpread bidPrice oraclePriceData in
       n5 ← findNodesToFillFromOrderList (bid_desc floatingOrderLists)
              askOracleSpread;
       n6 ← findNodesToFillFromOrderList (ask_asc floatingOrderLists)
              bidOracleSpread;
       n7 ← findNodesToFillFromOrderList (mark_desc floatingOrderLists)
              markOracleSpread;
       n8 ← findNodesToFillFromOrderList (mark_asc floatingOrderLists)
              markOracleSpread;
       mret (n5 ++ n6 ++ n7 ++ n8)
     else
       console_log (LogOracleInvalid marketIndex);;
       mret []);
  let nodesToFill := n1 ++ n2 ++ n3 ++ n4 ++ floatingNodes in
  unfilledNodes ← unfilled nodesToFill;
  for_of unfilledNodes (tryFillForMarket_dispatch market oraclePriceData).

(** The guard of lines 514-517 on the array [perMarketMutex]. *)
Definition perMarketMutex_held (flags : gmap Z Z) (marketIndex : Z) : bool :=
  bool_decide (flags !! marketIndex = Some 1).

Definition tryFillForMarket (marketIndex : Z) : M unit :=
  w ← get;
  if perMarketMutex_held (perMarketMutex w) marketIndex then mret tt
  else
    modify (set_perMarketMutex (insert marketIndex 1));;
    try_catch_finally
      (tryFillForMarket_body marketIndex)
      (fun e => console_log (LogUnexpectedErrorForMarket marketIndex e))
      (modify (set_perMarketMutex (insert marketIndex 0))).

(** *** The handlers attached to [clearingHouse.fillOrder(...)] *)
Definition fillOrder_then (a : FillAttempt) : M unit :=
  nodeToFill ← deref (fill_node a);
  console_log (LogFilled (userAccount nodeToFill)
                 (orderId (order nodeToFill))).

Definition fillOrder_catch (a : FillAttempt) (error : Error) : M unit :=
  modify (set_heap (alter (setHaveFilled false) (fill_node a)));;
  nodeToFill ← deref (fill_node a);
  let user := fill_user a in
  modify (set_userMap
            (insert (userAccount nodeToFill)
               {| user := user; upToDate := true |}));;
  console_log (LogErrorFilling (userAccount nodeToFill)
                 (orderId (order nodeToFill)));;
  let errorCode := getErrorCode error in
  if bool_decide (errorCode = Some 6043) then
    modify (set_fetchAccounts (fun l => l ++ [user]));;
    dlob_remove (order nodeToFill)
      (console_log (LogOrderNotFound (orderId (order nodeToFill))));;
    printTopOfOrderLists (marketIndex (order nodeToFill))
  else mret tt.

End Filler.

(** [Array(64).fill(0)] *)
Definition perMarketMutex_init : gmap Z Z :=
  list_to_map (map (fun i => (Z.of_nat i, 0)) (seq 0 64)).

(** ** Auxiliary notions used in the statements *)

(** The consecutive values the cursor takes: [c], [(c + 1) % n], ... *)
Fixpoint cursors (n : Z) (c : JsIndex) (k : nat) : list JsIndex :=
  match k with
  | O => []
  | S k' => c :: cursors n (JsIndex_succ_mod c n) k'
  end.

Fixpoint advance (n : Z) (c : JsIndex) (k : nat) : JsIndex :=
  match k with
  | O => c
  | S k' => advance n (JsIndex_succ_mod c n) k'
  end.

(** The interval the design document gives for the monitoring cycle:
    [min((round(marginRatio * 100))^2, 60000)] milliseconds. *)
Definition spec_sleepTime (r : JsNumber.number) : JsNumber.number :=
  JsNumber.Math_min
    (JsNumber.pow2 (JsNumber.Math_round (JsNumber.mul r (JsNumber.ofZ 100))))
    (JsNumber.ofZ 60000).

(** *** Interleaved fill-scheduling passes

    [tryFillForMarket] is an [async] function: between its guard and its
    [finally] block other calls of it may start.  A pass is in flight from
    the moment it has set its flag until its [finally] block has run; the
    two events below are the guard (lines 514-517) and the [finally] block
    (lines 707-709) of one call. *)
Record Passes := {
  flags : gmap Z Z;
  inFlight : list Z
}.

Inductive PassEvent :=
| Requested (marketIndex : Z)
| Finished (marketIndex : Z).

Fixpoint remove_first (m : Z) (l : list Z) : list Z :=
  match l with
  | [] => []
  | x :: rest => if x =? m then rest else x :: remove_first m rest
  end.

Definition tryFillForMarket_enter (marketIndex : Z) (fl : gmap Z Z)
  : option (gmap Z Z) :=
  if perMarketMutex_held fl marketIndex then None
  else Some (<[marketIndex := 1]> fl).

Definition tryFillForMarket_exit (marketIndex : Z) (fl : gmap Z Z)
  : gmap Z Z :=
  <[marketIndex := 0]> fl.

(** An event that cannot happen (the end of a pass that is not in flight)
    leaves the state as it is. *)
Definition pass_step (s : Passes) (e : PassEvent) : Passes :=
  match e with
  | Requested m =>
      match tryFillForMarket_enter m (flags s) with
      | None => s
      | Some fl => {| flags := fl; inFlight := m :: inFlight s |}
      end
  | Finished m =>
      if bool_decide (m ∈ inFlight s) then
        {| flags := tryFillForMarket_exit m (flags s);
           inFlight := remove_first m (inFlight s) |}
      else s
  end.

Definition passes_init : Passes :=
  {| flags := perMarketMutex_init; inFlight := [] |}.

Definition passes_run (es : list PassEvent) : Passes :=
  fold_left pass_step es passes_init.

(** ** A concrete ledger

    One instance of the collaborators and a few orders, accounts and
    worlds on which the closures are run. *)
Module Example.

(** Modelled from the spec: [crossesBest] of section 4.1, the member
    [pricesCross] of the node classes of [./dlob/OrderList].  A node of
    a descending list crosses when the reference price is at or below
    its price, a node of an ascending list when it is at or above. *)
Definition spec_pricesCross (role : Order -> Role) (n : Node) (p : Z)
  : bool :=
  let key := DLOB.sortPrice (DLOB.listTypeOf (order n)) (order n) in
  if DLOB.descending (role (order n)) then p <=? key else key <=? p.

Definition restingRole (o : Order) : Role :=
  match orderType o, direction o with
  | (limit | market), long => BidDesc
  | (limit | market), short => AskAsc
  | (triggerMarket | triggerLimit), long => MarkDesc
  | (triggerMarket | triggerLimit), short => MarkAsc
  end.

Definition market0 : Market :=
  {| market_oracle := "oracle0"; minimumBaseAssetTradeSize := 1 |}.

Definition mkOrder (id : Z) (d : PositionDirection) (t : OrderType)
    (p off : Z) (ro po : bool) : Order :=
  {| orderId := id; marketIndex := 0; direction := d; orderType := t;
     price := p; oraclePriceOffset := off; reduceOnly := ro;
     postOnly := po; baseAssetAmount := 10; baseAssetAmountFilled := 0 |}.

(* fixed-mode bids *)
Definition bid100 : Order := mkOrder 1 long limit 100 0 false false.
Definition bid99 : Order := mkOrder 2 long limit 99 0 false false.
(* floating-mode bids, priced 5 and 4 above the oracle *)
Definition float5 : Order := mkOrder 3 long limit 0 5 false false.
Definition float4_postOnly : Order := mkOrder 4 long limit 0 4 false true.
(* a market order *)
Definition marketOrder : Order := mkOrder 5 long market 0 0 false false.
Definition ask120 : Order := mkOrder 6 short limit 120 0 false false.

Definition userAccounts : list (ProgramAccount UserAccount) :=
  [ {| publicKey := "alice";
       account := {| account_authority := "alice"; collateral := 5000000 |} |};
    {| publicKey := "bob";
       account := {| account_authority := "bob"; collateral := 999999 |} |};
    {| publicKey := "carol";
       account := {| account_authority := "carol"; collateral := 1000000 |} |} ].

Definition history : OrderHistoryAccount :=
  {| history_head := 3;
     orderRecords :=
       [ {| record_action := place; record_user := "alice";
            record_order := bid100 |};
         {| record_action := place; record_user := "bob";
            record_order := bid99 |};
         {| record_action := place; record_user := "mallory";
            record_order := ask120 |};
         {| record_action := cancel; record_user := "alice";
            record_order := bid100 |} ] |}.

Definition orderNotFound : Error := {| message := "0x179b" |}.
Definition timeout : Error := {| message := "timeout" |}.

#[local] Instance ledger : Collaborators := {|
  getMarginRatio := fun u =>
    if String.eqb (authority u) "alice" then 10050 else 150;
  getFreeCollateral := fun _ => 7;
  getUserOrdersAccount := fun u =>
    if String.eqb (authority u) "alice"
    then Some {| orders_user := "alice"; orders := [bid100] |}
    else None;
  getUserAccount := fun u =>
    {| account_authority := authority u; collateral := 5000000 |};
  user_getUserAccountPublicKey := authority;
  user_getUserOrdersAccountPublicKey := fun u => "orders-" +:+ authority u;
  isOrderRiskIncreasing := fun _ _ => false;
  isOrderReduceOnly := fun _ _ => false;
  convertToNumber := sdk_convertToNumber;
  calculateAskPrice := fun _ => 98;
  calculateMarkPrice := fun _ => 97;
  calculateBidPrice := fun _ => 96;
  calculateOracleSpread := fun p d => p - d;
  isOracleValid := fun _ _ => true;
  calculateBaseAssetAmountMarketCanExecute := fun _ o _ =>
    baseAssetAmount o - baseAssetAmountFilled o;
  calculateBaseAssetAmountUserCanExecute := fun _ o _ =>
    baseAssetAmount o - baseAssetAmountFilled o;
  getUserOrdersAccountPublicKey := fun pk =>
    if String.eqb pk "mallory" then inl timeout
    else inr ("orders-" +:+ pk);
  program_account_user_all := inr userAccounts;
  program_account_user_fetch := fun pk =>
    inr {| account_authority := pk; collateral := 0 |};
  bulkPollingUserSubscribe := fun _ => None;
  user_subscribe := fun _ => None;
  getOrderHistoryAccount := fun _ => history;
  getMarket := fun mi => if mi =? 0 then Some market0 else None;
  getOraclePriceData := fun _ => Some 95;
  getErrorCode := fun e =>
    if String.eqb (message e) "0x179b" then Some 6043 else None;
  pricesCross := spec_pricesCross restingRole;
  roleOf := restingRole
|}.

Definition world0 : World :=
  {| dlob := DLOB.empty; heap := ∅; userMap := ∅;
     nextOrderHistoryIndex := Num 0; updateOrderListMutex := 0;
     perMarketMutex := perMarketMutex_init; console := [];
     processUsers := []; fillOrders := []; fetchAccounts := [];
     resumptions := 0%nat; applied := [] |}.

Definition userOrdersAccounts : list (ProgramAccount UserOrdersAccount) :=
  [ {| publicKey := "orders-alice";
       account := {| orders_user := "alice";
                     orders := [bid100; float5] |} |};
    {| publicKey := "orders-bob";
       account := {| orders_user := "bob";
                     orders := [bid99; float4_postOnly] |} |} ].

(** The book after the initial load: nodes 0 and 1 are alice's, nodes 2
    and 3 are bob's; the fixed bid list is [0; 2], the floating one
    [1; 3]. *)
Definition loaded : World := (runBot_loadOrders userOrdersAccounts world0).2.

Definition alice : ClearingHouseUser := {| authority := "alice" |}.
Definition bob : ClearingHouseUser := {| authority := "bob" |}.

Definition withUsers (a b : bool) (w : World) : World :=
  set_userMap (fun _ =>
    <["alice" := {| user := alice; upToDate := a |}]>
      (<["bob" := {| user := bob; upToDate := b |}]> ∅)) w.

(** The world after one scheduling pass on the loaded book, both users
    known and fresh; its first fill attempt is for node 0. *)
Definition dispatched : World :=
  (tryFillForMarket 0 (withUsers true true loaded)).2.

Definition node0_inFlight : Node :=
  {| order := bid100; userAccount := "alice";
     userOrdersAccount := "orders-alice"; haveFilled := true |}.

Definition attempt0 : FillAttempt :=
  {| fill_node := 0%nat; fill_user := alice; fill_userAccount := "alice";
     fill_userOrdersAccount := "orders-alice"; fill_order := bid100 |}.

(** A bid that carries the reduce-only flag. *)
Definition reduceOnlyBid : Order := mkOrder 7 long limit 90 0 true false.

(** Only alice is known; bob owns node 2. *)
Definition onlyAlice : World :=
  set_userMap (fun _ => <["alice" := {| user := alice; upToDate := true |}]> ∅)
    loaded.

Definition node2 : Node :=
  {| order := bid99; userAccount := "bob";
     userOrdersAccount := "orders-bob"; haveFilled := false |}.

Definition node3 : Node :=
  {| order := float4_postOnly; userAccount := "bob";
     userOrdersAccount := "orders-bob"; haveFilled := false |}.

(** The world after the turn for node 0 in the dispatch loop. *)
Definition afterNode0 : World :=
  (for_of [0%nat] (tryFillForMarket_dispatch market0 95) onlyAlice).2.

(** The flag of market 0 is up. *)
Definition busy : World := set_perMarketMutex (insert 0 1) loaded.

(** The world after draining the order history from the start. *)
Definition drained : World := (updateOrderList 10 world0).2.

(** A user-orders account that holds a market order. *)
Definition marketOrderAccount : ProgramAccount UserOrdersAccount :=
  {| publicKey := "orders-carol";
     account := {| orders_user := "carol"; orders := [marketOrder] |} |}.

End Example.

(** *** Frames

    [keeps f c]: running [c] comes back, with a value or an exception,
    and leaves the observation [f] of the world as it was. *)
Definition keeps {X A} (f : World -> X) (c : M A) : Prop :=
  forall w, f (c w).2 = f w /\ (c w).1 <> Diverge.

(** The second disabling condition of the monitoring cycle in the words of
    the design document: the evaluation says the order would not reduce
    the position while the order does not carry the reduce-only flag,
    the first condition being false. *)
Definition mismatch_as_documented `{Collaborators}
    (user : ClearingHouseUser) (order : Order) : Prop :=
  let tooMuchLeverage := getFreeCollateral user =? ZERO in
  orderVerdict user tooMuchLeverage order = DisableReduceOnlyMismatch <->
  (tooMuchLeverage && isOrderRiskIncreasing user order = false
   /\ isOrderReduceOnly user order = false
   /\ reduceOnly order = false).

(** The variables that sequence the bot: the two mutexes, the cursor into
    the order history and the counters attached to it. *)
Definition control (w : World) :=
  (updateOrderListMutex w, nextOrderHistoryIndex w, applied w,
   resumptions w, perMarketMutex w).

(** At most one pass per market is in flight, and a market's flag is up
    exactly while its pass is. *)
Definition passes_exclusive (s : Passes) : Prop :=
  NoDup (inFlight s)
  /\ forall m, m ∈ inFlight s <-> flags s !! m = Some 1.

(** The handle [fetchAllUsers] builds for an account of the ledger. *)
Definition userOf (a : ProgramAccount UserAccount) : ClearingHouseUser :=
  {| authority := account_authority (account a) |}.

(** What the fill scheduler and the loader own: the user map and the
    calls made on users and on the execution service. *)
Definition scheduling (w : World) :=
  (userMap w, processUsers w, fillOrders w, fetchAccounts w).

(** Everything but the book and the console. *)
Definition outsideBook (w : World) :=
  (heap w, userMap w, processUsers w, fillOrders w, fetchAccounts w,
   control w).

(** The test of lines 323-329: the account holds at least one dollar and
    the user map has no record under its key. *)
Definition fetchAllUsers_eligible (um : gmap string MapValue)
    (a : ProgramAccount UserAccount) : bool :=
  negb (collateral (account a) <? QUOTE_PRECISION)
  && negb (bool_decide (is_Some (um !! publicKey a))).

(** The node objects and the attempts handed to the execution service. *)
Definition nodesAndAttempts (w : World) := (heap w, fillOrders w).

(** What a scheduling pass has no business with: the book, the history
    cursor with its guard, and the users whose accounts were refetched. *)
Definition outsidePass (w : World) :=
  (dlob w, fetchAccounts w, nextOrderHistoryIndex w, updateOrderListMutex w,
   applied w, resumptions w).

(** An attempt whose node is in flight in the node objects [h1] and
    whose owner's record is stale in the user map [um1]; the attempt
    carries the order and the accounts of its node. *)
Definition attempt_in_flight (h1 : gmap NodeRef Node)
    (um1 : gmap string MapValue) (a : FillAttempt) : Prop :=
  (exists n1, h1 !! fill_node a = Some n1
              /\ haveFilled n1 = true
              /\ fill_order a = order n1
              /\ fill_userAccount a = userAccount n1
              /\ fill_userOrdersAccount a = userOrdersAccount n1)
  /\ upToDate <$> um1 !! fill_userAccount a = Some false.

(** An attempt of a pass that started with the node objects [h0] and
    ended with the node objects [h1] and the user map [um1]: its node was
    not in flight at the start and the attempt is in flight at the end. *)
Definition submitted_in_flight (h0 h1 : gmap NodeRef Node)
    (um1 : gmap string MapValue) (a : FillAttempt) : Prop :=
  (exists n, h0 !! fill_node a = Some n /\ haveFilled n = false)
  /\ attempt_in_flight h1 um1 a.

(** The only change a pass makes to node objects: flags going up. *)
Definition flags_raised (h0 h1 : gmap NodeRef Node) : Prop :=
  forall r, h1 !! r = h0 !! r \/ h1 !! r = setHaveFilled true <$> h0 !! r.

(** What the dispatch loop over the candidates [cs] has done between the
    worlds [w] and [w']: it has submitted attempts for candidates, each in
    flight in [w'], raised flags of node objects and made no stale record
    fresh. *)
Definition dispatch_progress (cs : list NodeRef) (w w' : World) : Prop :=
  exists new,
    fillOrders w' = fillOrders w ++ new
    /\ flags_raised (heap w) (heap w')
    /\ (forall k, upToDate <$> userMap w !! k = Some false ->
                  upToDate <$> userMap w' !! k = Some false)
    /\ Forall (fun a => fill_node a ∈ cs
                        /\ attempt_in_flight (heap w') (userMap w') a) new.

(** What a pass that started with the node objects [h0] and the attempts
    [f0] has done when it is in the world [w']. *)
Definition pass_post (h0 : gmap NodeRef Node) (f0 : list FillAttempt)
    (w' : World) : Prop :=
  exists new,
    fillOrders w' = f0 ++ new
    /\ flags_raised h0 (heap w')
    /\ Forall (submitted_in_flight h0 (heap w') (userMap w')) new.

(** [x <= y] on numbers: false as soon as one of them is [NaN]. *)
Definition JsNumber_le (x y : JsNumber.number) : bool :=
  match SFcompare x y with
  | Some Lt | Some Eq => true
  | _ => false
  end.

(** A number that is not [NaN] and whose sign bit is [s]. *)
Definition JsNumber_signed (s : bool) (x : JsNumber.number) : Prop :=
  match x with
  | S754_zero s' | S754_infinity s' | S754_finite s' _ _ => s' = s
  | S754_nan => False
  end.

(** * Properties *)

(** ** Reasoning about computations *)

Ltac munfold :=
  unfold mbind, M_bind, mret, M_ret, throw, diverge, get, gets, modify,
    defined, await, awaitVoid, console_log, deref in *.

Lemma bind_return {A B} (c : M A) (k : A -> M B) w a w1 :
  c w = (Return a, w1) -> (c ≫= k) w = k a w1.
Proof. intros Hc. unfold mbind, M_bind. rewrite Hc. reflexivity. Qed.

Lemma bind_throw {A B} (c : M A) (k : A -> M B) w e w1 :
  c w = (Throw e, w1) -> (c ≫= k) w = (Throw e, w1).
Proof. intros Hc. unfold mbind, M_bind. rewrite Hc. reflexivity. Qed.

Lemma bind_diverge {A B} (c : M A) (k : A -> M B) w w1 :
  c w = (Diverge, w1) -> (c ≫= k) w = (Diverge, w1).
Proof. intros Hc. unfold mbind, M_bind. rewrite Hc. reflexivity. Qed.

Lemma keeps_ret {X A} (f : World -> X) (a : A) : keeps f (mret a).
Proof. intros w; split; [reflexivity | discriminate]. Qed.

Lemma keeps_throw {X A} (f : World -> X) (e : Error) : keeps f (@throw A e).
Proof. intros w; split; [reflexivity | discriminate]. Qed.

Lemma keeps_get {X} (f : World -> X) : keeps f get.
Proof. intros w; split; [reflexivity | discriminate]. Qed.

Lemma keeps_gets {X A} (f : World -> X) (g : World -> A) : keeps f (gets g).
Proof. intros w; split; [reflexivity | discriminate]. Qed.

Lemma keeps_modify {X} (f : World -> X) (g : World -> World) :
  (forall w, f (g w) = f w) -> keeps f (modify g).
Proof. intros Hg w; split; [apply Hg | discriminate]. Qed.

Lemma keeps_bind {X A B} (f : World -> X) (c : M A) (k : A -> M B) :
  keeps f c -> (forall a, keeps f (k a)) -> keeps f (c ≫= k).
Proof.
  intros Hc Hk w. unfold mbind, M_bind.
  destruct (Hc w) as [Hf Hd].
  destruct (c w) as [[a| e |] w1]; simpl in *.
  - destruct (Hk a w1) as [Hf' Hd']. split; [congruence | exact Hd'].
  - split; [exact Hf | discriminate].
  - contradiction.
Qed.

Lemma keeps_defined {X A} (f : World -> X) (x : option A) :
  keeps f (defined x).
Proof. destruct x; intros w; split; (reflexivity || discriminate). Qed.

Lemma keeps_await {X A} (f : World -> X) (x : Error + A) : keeps f (await x).
Proof. destruct x; intros w; split; (reflexivity || discriminate). Qed.

Lemma keeps_awaitVoid {X} (f : World -> X) (x : option Error) :
  keeps f (awaitVoid x).
Proof. destruct x; intros w; split; (reflexivity || discriminate). Qed.

Lemma keeps_for_of {X A} (f : World -> X) (xs : list A) (body : A -> M unit) :
  (forall x, x ∈ xs -> keeps f (body x)) -> keeps f (for_of xs body).
Proof.
  induction xs as [| x xs IH]; intros Hb; simpl.
  - apply keeps_ret.
  - apply keeps_bind.
    + apply Hb. left.
    + intros _. apply IH. intros y Hy. apply Hb. right. exact Hy.
Qed.

Lemma keeps_try_catch_finally {X} (f : World -> X)
    (body : M unit) (handler : Error -> M unit) (finalizer : M unit) :
  keeps f body -> (forall e, keeps f (handler e)) -> keeps f finalizer ->
  keeps f (try_catch_finally body handler finalizer).
Proof.
  intros Hb Hh Hf w. unfold try_catch_finally.
  destruct (Hb w) as [Hb1 Hb2].
  destruct (body w) as [[[]| e |] w1]; simpl in *.
  - destruct (Hf w1) as [Hf1 Hf2]. split; [congruence | exact Hf2].
  - destruct (Hh e w1) as [Hh1 Hh2].
    destruct (handler e w1) as [[[]| e' |] w2]; simpl in *.
    + destruct (Hf w2) as [Hf1 Hf2]. split; [congruence | exact Hf2].
    + unfold mbind, M_bind. destruct (Hf w2) as [Hf1 Hf2].
      destruct (finalizer w2) as [[[]| e'' |] w3]; simpl in *;
        (split; [congruence | (discriminate || contradiction)]).
    + contradiction.
  - contradiction.
Qed.

(** One step of a frame proof: follow the shape of the computation. *)
Ltac keeps_step :=
  lazymatch goal with
  | |- keeps _ (mbind _ _) => apply keeps_bind; [| intros ?]
  | |- keeps _ (mret _) => apply keeps_ret
  | |- keeps _ (throw _) => apply keeps_throw
  | |- keeps _ get => apply keeps_get
  | |- keeps _ (gets _) => apply keeps_gets
  | |- keeps _ (defined _) => apply keeps_defined
  | |- keeps _ (await _) => apply keeps_await
  | |- keeps _ (awaitVoid _) => apply keeps_awaitVoid
  | |- keeps _ (console_log _) =>
      apply keeps_modify; intros ?; reflexivity
  | |- keeps _ (modify _) => apply keeps_modify; intros ?; reflexivity
  | |- keeps _ (if ?b then _ else _) => destruct b
  | |- keeps _ (match ?x with _ => _ end) => destruct x
  end.

Ltac keeps_auto := repeat (keeps_step; eauto).

(** ** The monitoring cycle *)

Section MonitorProperties.
Context `{Collaborators}.

Lemma oneMinute_value :
  JsNumber.mul (JsNumber.ofZ 1000) (JsNumber.ofZ 60) = JsNumber.ofZ 60000.
Proof. vm_compute. reflexivity. Qed.

Lemma sleepTimeOf_spec r : sleepTimeOf r = spec_sleepTime r.
Proof. unfold sleepTimeOf, spec_sleepTime. rewrite oneMinute_value. reflexivity. Qed.

(** [updateUserOrders] returns the margin ratio it read before looking at
    the orders. *)
Lemma updateUserOrders_returns user k1 k2 w m :
  (updateUserOrders user k1 k2 w).1 = Return m -> m = getMarginRatio user.
Proof.
  unfold updateUserOrders. munfold.
  destruct (getUserOrdersAccount user) as [acct |].
  - destruct (for_of _ _ w) as [[[]| e |] w1]; simpl; congruence.
  - simpl. congruence.
Qed.

(** C2 (amended): an order takes the flag/intent-mismatch branch of the
    monitoring cycle exactly when the first condition (no free
    collateral and risk increasing) is false, the evaluation says the
    order would not reduce the position, and the order carries the
    reduce-only flag; the cycle then asks the book to disable it. *)
Theorem updateUserOrders_mismatch_iff user order :
  (orderVerdict user (getFreeCollateral user =? ZERO) order
     = DisableReduceOnlyMismatch <->
   ((getFreeCollateral user =? ZERO) && isOrderRiskIncreasing user order
      = false
    /\ isOrderReduceOnly user order = false
    /\ reduceOnly order = true))
  /\ (orderVerdict user (getFreeCollateral user =? ZERO) order
        = DisableReduceOnlyMismatch ->
      forall k1 k2,
        updateUserOrders_order user k1 k2 (getFreeCollateral user =? ZERO)
          order =
        dlob_disable order
          (console_log (LogRiskIncreasingButReduceOnly (orderId order));;
           printTopOfOrderLists (marketIndex order))).
Proof.
  set (tml := getFreeCollateral user =? ZERO). split.
  - unfold orderVerdict.
    destruct (tml && isOrderRiskIncreasing user order);
      destruct (isOrderReduceOnly user order);
      destruct (reduceOnly order);
      destruct (collateral (getUserAccount user) =? ZERO);
      simpl;
      (split; [intros Hv; try discriminate Hv; repeat split; reflexivity
              | intros (? & ? & ?); congruence]).
  - intros Hv k1 k2. unfold updateUserOrders_order. rewrite Hv. reflexivity.
Qed.

(** C8: whenever a turn of the monitoring loop reaches its [sleep], the
    interval it sleeps for is [min((round(r * 100))^2, 60000)], where
    [r] is the number computed from the user's margin ratio. *)
Theorem processUser_sleepTime user w sleepTime :
  (processUser_cycle user w).1 = Return sleepTime ->
  exists r,
    convertToNumber (getMarginRatio user) TEN_THOUSAND = Some r
    /\ sleepTime = spec_sleepTime r.
Proof.
  unfold processUser_cycle. unfold mbind at 1. unfold M_bind.
  pose proof (updateUserOrders_returns user
                (user_getUserAccountPublicKey user)
                (user_getUserOrdersAccountPublicKey user) w) as Hm.
  destruct (updateUserOrders _ _ _ w) as [[m | e |] w1]; simpl in *;
    try discriminate.
  rewrite <- (Hm m eq_refl).
  destruct (convertToNumber m TEN_THOUSAND) as [r |]; simpl;
    try discriminate.
  intros [= <-]. exists r. split; [reflexivity | apply sleepTimeOf_spec].
Qed.

(** Conversely, a turn whose pass over the orders returns and whose margin
    ratio converts to a number reaches its [sleep]. *)
Lemma processUser_cycle_sleeps user w m w1 r :
  updateUserOrders user (user_getUserAccountPublicKey user)
    (user_getUserOrdersAccountPublicKey user) w = (Return m, w1) ->
  convertToNumber m TEN_THOUSAND = Some r ->
  processUser_cycle user w = (Return (spec_sleepTime r), w1).
Proof.
  intros Hrun Hconv. unfold processUser_cycle.
  rewrite (bind_return _ _ w m w1) by exact Hrun.
  rewrite Hconv, sleepTimeOf_spec. reflexivity.
Qed.

End MonitorProperties.

(** The interval for some margin ratios, in milliseconds, with the SDK's
    conversion: 1.5%, 14.5%, 100.5% (whose product with 100 falls just
    below 100.5 in binary64), 245% and the ratio of a user without
    positions. *)
Lemma sleepTime_values :
  map (fun m =>
         r ← sdk_convertToNumber m TEN_THOUSAND;
         JsNumber.toZ (spec_sleepTime r))
      [150; 1450; 10050; 24500; 9007199254740991]
  = [Some 4; Some 196; Some 10000; Some 60000; Some 60000].
Proof. vm_compute. reflexivity. Qed.

(** The documented condition fails on alice's resting bid: the evaluation
    says it does not reduce her position and it carries no reduce-only
    flag, yet it is enabled, not disabled. *)
Lemma mismatch_as_documented_fails :
  ~ mismatch_as_documented (H := Example.ledger) Example.alice Example.bid100.
Proof.
  unfold mismatch_as_documented. intros [_ Hback].
  assert (orderVerdict (H := Example.ledger) Example.alice
            (getFreeCollateral (Collaborators := Example.ledger) Example.alice
               =? ZERO)
            Example.bid100 = EnableOrder) as Hv by (vm_compute; reflexivity).
  rewrite Hv in Hback.
  discriminate Hback. repeat split; vm_compute; reflexivity.
Qed.

Lemma processUser_sleepTime_witness :
  (processUser_cycle (H := Example.ledger) Example.alice Example.loaded).1
    = Return (JsNumber.ofZ 10000)
  /\ exists r,
       convertToNumber (Collaborators := Example.ledger)
         (getMarginRatio (Collaborators := Example.ledger) Example.alice)
         TEN_THOUSAND = Some r
       /\ JsNumber.ofZ 10000 = spec_sleepTime r.
Proof.
  split; [vm_compute; reflexivity |].
  apply (processUser_sleepTime (H := Example.ledger)
           Example.alice Example.loaded).
  vm_compute; reflexivity.
Defined.

(** ** The book *)

Section BookProperties.
Context `{Collaborators}.

Lemma unlink_elem h id ref l :
  ref ∈ DLOB.unlink h id l -> DLOB.nodeHasId h id ref = false.
Proof.
  unfold DLOB.unlink. rewrite list_elem_of_In, filter_In.
  intros [_ Hb]. apply negb_true_iff in Hb. exact Hb.
Qed.

Lemma unlinkAll_elem h id ref m :
  ref ∈ DLOB.allRefs (DLOB.unlinkAll h id m) ->
  DLOB.nodeHasId h id ref = false.
Proof.
  unfold DLOB.allRefs, DLOB.allRoles, DLOB.unlinkAll, DLOB.unlinkRoles.
  simpl. rewrite !elem_of_app.
  intros [[? | [? | [? | ?]]] | [? | [? | [? | ?]]]];
    eauto using unlink_elem.
Qed.

(** After [remove] the identifier is not tracked... *)
Lemma remove_not_tracked o h b :
  orderId o ∉ DLOB.openOrders (DLOB.remove o h b).1.
Proof.
  unfold DLOB.remove. case_decide; simpl; [| assumption].
  rewrite elem_of_difference, elem_of_singleton. tauto.
Qed.

(** ... and, if it was tracked, no list links a node holding it. *)
Lemma remove_not_linked o h b :
  orderId o ∈ DLOB.openOrders b ->
  ~ DLOB.linked h (orderId o) (DLOB.remove o h b).1.
Proof.
  intros Hin (mi & m & ref & Hm & Href & Hid).
  unfold DLOB.remove in Hm. rewrite decide_True in Hm by assumption.
  simpl in Hm. rewrite lookup_fmap in Hm.
  destruct (DLOB.orderLists b !! mi) as [m0 |]; simpl in Hm; [| discriminate].
  injection Hm as <-. apply unlinkAll_elem in Href. congruence.
Qed.

(** An untracked identifier stays untracked through [insert] of another
    order. *)
Lemma insert_tracks o ua uoa h b :
  orderId o ∈ DLOB.openOrders (DLOB.insert o ua uoa h b).1.2.
Proof.
  unfold DLOB.insert. case_decide; simpl; [assumption | set_solver].
Qed.

Lemma nodeHasId_setHaveFilled h v r id ref :
  DLOB.nodeHasId (alter (setHaveFilled v) r h) id ref
  = DLOB.nodeHasId h id ref.
Proof.
  unfold DLOB.nodeHasId. destruct (decide (r = ref)) as [-> | Hne].
  - rewrite lookup_alter_eq. destruct (h !! ref); reflexivity.
  - rewrite lookup_alter_ne by assumption. reflexivity.
Qed.

Lemma dlob_remove_run o cb w :
  dlob_remove o cb w =
  (if (DLOB.remove o (heap w) (dlob w)).2 then cb else mret tt)
    (set_dlob (fun _ => (DLOB.remove o (heap w) (dlob w)).1) w).
Proof.
  unfold dlob_remove. munfold.
  destruct (DLOB.remove o (heap w) (dlob w)) as [b mutated]. reflexivity.
Qed.

Lemma keeps_printTopOfOrderLists {X} (f : World -> X) mi :
  (forall g w, f (set_console g w) = f w) ->
  keeps f (printTopOfOrderLists mi).
Proof.
  intros Hf. unfold printTopOfOrderLists.
  repeat (keeps_step; eauto). all: apply keeps_modify; intros; apply Hf.
Qed.

End BookProperties.

Section FillFailure.
Context `{Collaborators}.

(** C7: when a fill attempt fails, the node's in-flight mark is cleared
    and the owner's record is fresh again; no new attempt is submitted.
    If the failure carries error code 6043 the user's accounts are
    re-fetched and the order is removed from the book; for any other
    failure nothing else happens. *)
Theorem fillOrder_catch_effects a error w n :
  heap w !! fill_node a = Some n ->
  let w' := (fillOrder_catch a error w).2 in
  haveFilled <$> (heap w' !! fill_node a) = Some false
  /\ userMap w' !! userAccount n
     = Some {| user := fill_user a; upToDate := true |}
  /\ fillOrders w' = fillOrders w
  /\ (getErrorCode error = Some 6043 ->
      fetchAccounts w' = fetchAccounts w ++ [fill_user a]
      /\ dlob w' = (DLOB.remove (order n) (heap w') (dlob w)).1
      /\ (orderId (order n) ∉ DLOB.openOrders (dlob w'))
      /\ (orderId (order n) ∈ DLOB.openOrders (dlob w) ->
          ~ DLOB.linked (heap w') (orderId (order n)) (dlob w')))
  /\ (getErrorCode error <> Some 6043 ->
      (fillOrder_catch a error w).1 = Return tt
      /\ fetchAccounts w' = fetchAccounts w
      /\ dlob w' = dlob w
      /\ processUsers w' = processUsers w
      /\ console w' = console w
           ++ [LogErrorFilling (userAccount n) (orderId (order n))]).
Proof.
  intros Hn w'. subst w'.
  destruct (fillOrder_catch a error w) as [res w'] eqn:E. simpl.
  unfold fillOrder_catch in E.
  set (w1 := set_heap (alter (setHaveFilled false) (fill_node a)) w) in *.
  rewrite (bind_return _ _ w tt w1) in E by reflexivity.
  assert (Hn1 : heap w1 !! fill_node a = Some (setHaveFilled false n)).
  { unfold w1. simpl. rewrite lookup_alter_eq, Hn. reflexivity. }
  rewrite (bind_return _ _ w1 (setHaveFilled false n) w1) in E
    by (unfold deref; munfold; rewrite Hn1; reflexivity).
  simpl order in E. simpl userAccount in E.
  set (w2 := set_console
               (fun c => c ++ [LogErrorFilling (userAccount n)
                                 (orderId (order n))])
               (set_userMap
                  (insert (userAccount n)
                     {| user := fill_user a; upToDate := true |}) w1)) in *.
  rewrite (bind_return _ _ w1 tt _) in E by reflexivity.
  rewrite (bind_return _ _ _ tt w2) in E by reflexivity.
  case_bool_decide as Hcode.
  - (* order no longer exists *)
    rewrite (bind_return _ _ w2 tt _) in E by reflexivity.
    set (w3 := set_fetchAccounts (fun l => l ++ [fill_user a]) w2) in *.
    pose (f := fun w => (heap w, userMap w, fillOrders w, fetchAccounts w,
                         dlob w)).
    assert (Hf : forall g w, f (set_console g w) = f w) by reflexivity.
    destruct (DLOB.remove (order n) (heap w1) (dlob w)) as [b mutated] eqn:R.
    assert (Hc : exists w4,
               dlob_remove (order n)
                 (console_log (LogOrderNotFound (orderId (order n)))) w3
               = (Return tt, w4)
               /\ f w4 = f (set_dlob (fun _ => b) w3)).
    { rewrite dlob_remove_run. change (heap w3) with (heap w1).
      change (dlob w3) with (dlob w). rewrite R.
      destruct mutated; eexists; split; reflexivity. }
    destruct Hc as (w4 & Hc & Hf4).
    rewrite (bind_return _ _ _ tt w4) in E by exact Hc.
    pose proof (keeps_printTopOfOrderLists f (marketIndex (order n)) Hf w4)
      as [Hk _].
    rewrite E in Hk. simpl in Hk. rewrite Hf4 in Hk.
    unfold f in Hk. simpl in Hk.
    injection Hk as Hheap Humap Hfills Hfetch Hdlob.
    rewrite Hheap, Humap, Hfills, Hdlob.
    assert (Hb : b = (DLOB.remove (order n) (heap w1) (dlob w)).1)
      by (rewrite R; reflexivity).
    split; [| split; [| split; [| split]]].
    + unfold w1. simpl. rewrite lookup_alter_eq, Hn. reflexivity.
    + apply lookup_insert_eq.
    + reflexivity.
    + intros _. rewrite Hfetch.
      split; [reflexivity |]. split; [exact Hb |]. rewrite Hb. split.
      * apply remove_not_tracked.
      * apply remove_not_linked.
    + intros Hne. contradiction.
  - (* any other failure *)
    injection E as <- <-.
    split; [| split; [| split; [| split]]].
    + simpl. rewrite lookup_alter_eq, Hn. reflexivity.
    + simpl. apply lookup_insert_eq.
    + reflexivity.
    + intros Hc. contradiction.
    + intros _. repeat split; reflexivity.
Qed.

End FillFailure.

Lemma fillOrder_catch_effects_witness :
  heap Example.dispatched !! 0%nat = Some Example.node0_inFlight
  /\ haveFilled <$>
       (heap (fillOrder_catch (H := Example.ledger) Example.attempt0
                Example.orderNotFound Example.dispatched).2 !! 0%nat)
     = Some false.
Proof.
  split; [vm_compute; reflexivity |].
  refine (proj1 (fillOrder_catch_effects (H := Example.ledger)
                   Example.attempt0 Example.orderNotFound Example.dispatched
                   Example.node0_inFlight _)).
  vm_compute; reflexivity.
Defined.

(** ** The dispatch phase of a scheduling pass *)

Section DispatchProperties.
Context `{Collaborators}.

Lemma for_of_app {A} (xs ys : list A) (body : A -> M unit) w w1 :
  for_of xs body w = (Return tt, w1) ->
  for_of (xs ++ ys) body w = for_of ys body w1.
Proof.
  revert w. induction xs as [| x xs IH]; intros w; simpl.
  - intros [= <-]. reflexivity.
  - unfold mbind, M_bind.
    destruct (body x w) as [[[]| e |] w0]; try discriminate.
    apply IH.
Qed.

Lemma keeps_fetchUserAndAddToUserMap pk :
  keeps (fun w => (heap w, fillOrders w, dlob w))
        (fetchUserAndAddToUserMap pk).
Proof. unfold fetchUserAndAddToUserMap, processUser. keeps_auto. Qed.

(** A turn of the loop for node [r'] leaves every other node alone and
    submits attempts for [r'] only. *)
Lemma dispatch_frame market opd r r' w :
  r <> r' ->
  heap (tryFillForMarket_dispatch market opd r' w).2 !! r = heap w !! r
  /\ exists new,
       fillOrders (tryFillForMarket_dispatch market opd r' w).2
         = fillOrders w ++ new
       /\ Forall (fun a => fill_node a <> r) new.
Proof.
  intros Hne. unfold tryFillForMarket_dispatch.
  unfold deref. munfold.
  destruct (heap w !! r') as [n' |] eqn:Hn'; simpl;
    [| split; [reflexivity | exists []; rewrite app_nil_r; auto]].
  destruct (userMap w !! userAccount n') as [mapValue |] eqn:Hu; simpl.
  - match goal with
    | |- context [if ?c then _ else _] => destruct c
    end; simpl.
    + split; [reflexivity | exists []; rewrite app_nil_r; auto].
    + split.
      * apply lookup_alter_ne. congruence.
      * eexists. split; [reflexivity |]. repeat constructor. simpl. congruence.
  - pose proof (keeps_fetchUserAndAddToUserMap (userAccount n')
                  (set_console
                     (fun c => c ++ [LogUserNotFoundAdding (userAccount n')])
                     w)) as [Hk _].
    unfold mbind, M_bind in *.
    destruct (fetchUserAndAddToUserMap _ _) as [[mv | e |] w1];
      simpl in *; injection Hk as Hh Hf _; rewrite Hh, Hf;
      (split; [reflexivity | exists []; rewrite app_nil_r; auto]).
Qed.

Lemma dispatch_loop_frame market opd r cs w :
  r ∉ cs ->
  heap (for_of cs (tryFillForMarket_dispatch market opd) w).2 !! r
    = heap w !! r
  /\ exists new,
       fillOrders (for_of cs (tryFillForMarket_dispatch market opd) w).2
         = fillOrders w ++ new
       /\ Forall (fun a => fill_node a <> r) new.
Proof.
  revert w. induction cs as [| c cs IH]; intros w Hnotin; simpl.
  - split; [reflexivity | exists []; rewrite app_nil_r; auto].
  - apply not_elem_of_cons in Hnotin as [Hne Hnotin].
    destruct (dispatch_frame market opd r c w Hne) as (Hh & new & Hf & Hnew).
    unfold mbind, M_bind.
    destruct (tryFillForMarket_dispatch market opd c w) as [[[]| e |] w1];
      simpl in *; try (split; [exact Hh | exists new; auto]).
    destruct (IH w1 Hnotin) as (Hh' & new' & Hf' & Hnew').
    split; [congruence |].
    exists (new ++ new'). rewrite Hf', Hf, app_assoc.
    split; [reflexivity | apply Forall_app; auto].
Qed.

(** The turn for a node whose owner is not in the user map. *)
Lemma dispatch_unknown_user market opd r w n :
  heap w !! r = Some n ->
  userMap w !! userAccount n = None ->
  heap (tryFillForMarket_dispatch market opd r w).2 = heap w
  /\ fillOrders (tryFillForMarket_dispatch market opd r w).2 = fillOrders w
  /\ forall ua,
       program_account_user_fetch (userAccount n) = inr ua ->
       user_subscribe {| authority := account_authority ua |} = None ->
       (tryFillForMarket_dispatch market opd r w).1 = Return tt
       /\ userMap (tryFillForMarket_dispatch market opd r w).2
          = <[userAccount n :=
                {| user := {| authority := account_authority ua |};
                   upToDate := true |}]> (userMap w)
       /\ processUsers (tryFillForMarket_dispatch market opd r w).2
          = processUsers w ++ [{| authority := account_authority ua |}].
Proof.
  intros Hn Hu. unfold tryFillForMarket_dispatch.
  rewrite (bind_return _ _ w n w)
    by (unfold deref; munfold; rewrite Hn; reflexivity).
  rewrite (bind_return _ _ w w w) by reflexivity.
  rewrite Hu.
  rewrite (bind_return _ _ w tt _) by reflexivity.
  match goal with
  | |- context [(fetchUserAndAddToUserMap ?pk ≫= ?k) ?w0] =>
      pose proof (keeps_fetchUserAndAddToUserMap pk w0) as [Hk _];
      set (w1 := w0) in *
  end.
  split; [| split].
  - unfold mbind, M_bind.
    destruct (fetchUserAndAddToUserMap _ w1) as [[mv | e |] w2];
      simpl in *; congruence.
  - unfold mbind, M_bind.
    destruct (fetchUserAndAddToUserMap _ w1) as [[mv | e |] w2];
      simpl in *; congruence.
  - intros ua Hfetch Hsub. clear Hk.
    unfold fetchUserAndAddToUserMap, processUser. munfold.
    rewrite Hfetch. simpl. rewrite Hsub. simpl. auto.
Qed.

(** C10: in the loop over the surviving candidates, the turn for a
    candidate whose owner is missing from the user map fetches and
    registers the owner and goes on to the next candidate: the pass
    submits no fill attempt for that node and leaves the node as it was,
    not marked in flight, with its owner's record fresh, so that a later
    pass can select it. *)
Theorem dispatch_skips_unknown_user market opd pre r post w w1 n :
  r ∉ pre -> r ∉ post ->
  for_of pre (tryFillForMarket_dispatch market opd) w = (Return tt, w1) ->
  heap w1 !! r = Some n ->
  userMap w1 !! userAccount n = None ->
  let turn := tryFillForMarket_dispatch market opd r w1 in
  let pass :=
    for_of (pre ++ r :: post) (tryFillForMarket_dispatch market opd) w in
  (forall ua,
      program_account_user_fetch (userAccount n) = inr ua ->
      user_subscribe {| authority := account_authority ua |} = None ->
      turn.1 = Return tt
      /\ userMap turn.2 !! userAccount n
         = Some {| user := {| authority := account_authority ua |};
                   upToDate := true |}
      /\ processUsers turn.2
         = processUsers w1 ++ [{| authority := account_authority ua |}])
  /\ heap turn.2 = heap w1
  /\ fillOrders turn.2 = fillOrders w1
  /\ heap pass.2 !! r = Some n
  /\ exists new,
       fillOrders pass.2 = fillOrders w ++ new
       /\ Forall (fun a => fill_node a <> r) new.
Proof.
  intros Hpre Hpost Hrun Hn Hu turn pass.
  destruct (dispatch_unknown_user market opd r w1 n Hn Hu)
    as (Hheap & Hfills & Hreg).
  fold turn in Hheap, Hfills, Hreg.
  split; [| split; [exact Hheap | split; [exact Hfills |]]].
  { intros ua Hfetch Hsub.
    destruct (Hreg ua Hfetch Hsub) as (Hres & Hmap & Hproc).
    split; [exact Hres |]. split; [| exact Hproc].
    rewrite Hmap. apply lookup_insert_eq. }
  destruct (dispatch_loop_frame market opd r pre w Hpre)
    as (Hh0 & new0 & Hf0 & Hnew0).
  rewrite Hrun in Hh0, Hf0. simpl in Hh0, Hf0.
  assert (Hpass : pass = for_of (r :: post)
                           (tryFillForMarket_dispatch market opd) w1)
    by (unfold pass; apply for_of_app; exact Hrun).
  rewrite Hpass. simpl for_of. unfold mbind, M_bind. fold turn.
  destruct turn as [[[]| e |] w1'] eqn:Hturn; simpl in *.
  - destruct (dispatch_loop_frame market opd r post w1' Hpost)
      as (Hh1 & new1 & Hf1 & Hnew1).
    split; [rewrite Hh1, Hheap; exact Hn |].
    exists (new0 ++ new1). rewrite Hf1, Hfills, Hf0, app_assoc.
    split; [reflexivity | apply Forall_app; auto].
  - split; [rewrite Hheap; exact Hn |].
    exists new0. rewrite Hfills. auto.
  - split; [rewrite Hheap; exact Hn |].
    exists new0. rewrite Hfills. auto.
Qed.

End DispatchProperties.

(** ** The initial load of user accounts *)

Section FetchAllUsersProperties.
Context `{Collaborators}.

(** The users [fetchAllUsers] subscribes to: the accounts holding at
    least one dollar that the map does not know yet, in order. *)
Lemma fetchAllUsers_collect_elem um accts acc u :
  u ∈ fetchAllUsers_collect um accts acc ->
  u ∈ acc \/
  exists b, b ∈ accts /\ u = userOf b
            /\ QUOTE_PRECISION <= collateral (account b)
            /\ um !! publicKey b = None.
Proof.
  revert acc. induction accts as [| b accts IH]; intros acc; simpl.
  - auto.
  - destruct (Z.ltb_spec (collateral (account b)) QUOTE_PRECISION) as [Hlt | Hge].
    + intros Hu. destruct (IH _ Hu) as [? | (c & Hc & ?)]; auto.
      right. exists c. split; [right; exact Hc | assumption].
    + case_bool_decide as Hin.
      * intros Hu. destruct (IH _ Hu) as [? | (c & Hc & ?)]; auto.
        right. exists c. split; [right; exact Hc | assumption].
      * intros Hu. destruct (IH _ Hu) as [Hacc | (c & Hc & ?)].
        -- apply elem_of_app in Hacc as [? | Hb]; auto.
           apply list_elem_of_singleton in Hb. right. exists b.
           repeat split; [left | exact Hb | exact Hge |].
           destruct (um !! publicKey b) eqn:E; [| reflexivity].
           exfalso. apply Hin. eauto.
        -- right. exists c. split; [right; exact Hc | assumption].
Qed.

(** Registering the subscribed users always returns, starts one loop per
    user and touches only their keys. *)
Lemma fetchAllUsers_register_loop userArray w :
  exists w',
    for_of userArray fetchAllUsers_register w = (Return tt, w')
    /\ processUsers w' = processUsers w ++ userArray
    /\ forall k, (forall u, u ∈ userArray -> user_getUserAccountPublicKey u <> k) ->
                 userMap w' !! k = userMap w !! k.
Proof.
  revert w. induction userArray as [| u us IH]; intros w; simpl.
  - exists w. rewrite app_nil_r. auto.
  - pose (w1 := set_processUsers (fun l => l ++ [u])
                  (set_userMap
                     (insert (user_getUserAccountPublicKey u)
                        {| user := u; upToDate := true |}) w)).
    destruct (IH w1) as (w' & Hrun & Hp & Hm).
    exists w'. split; [| split].
    + rewrite (bind_return _ _ w tt w1) by reflexivity. exact Hrun.
    + rewrite Hp. simpl. rewrite <- app_assoc. reflexivity.
    + intros k Hk. rewrite Hm.
      * simpl. apply lookup_insert_ne. apply Hk. left.
      * intros v Hv. apply Hk. right. exact Hv.
Qed.

Lemma NoDup_fmap_inj {A B} (f : A -> B) (l : list A) x y :
  NoDup (f <$> l) -> x ∈ l -> y ∈ l -> f x = f y -> x = y.
Proof.
  induction l as [| z l IH]; simpl; intros Hnd Hx Hy Hf.
  - inversion Hx.
  - apply NoDup_cons in Hnd as [Hz Hnd].
    apply elem_of_cons in Hx as [-> | Hx];
      apply elem_of_cons in Hy as [-> | Hy]; auto.
    + exfalso. apply Hz. rewrite Hf. apply list_elem_of_fmap. eauto.
    + exfalso. apply Hz. rewrite <- Hf. apply list_elem_of_fmap. eauto.
Qed.

(** C9: an account of the initial load that holds less than one dollar
    and is not in the user map yet is passed over: after [fetchAllUsers]
    the map still has no record under its key, and none of the
    monitoring loops started by the load is for its user.  The record and
    the loop come later, when the dispatch loop meets a node owned by that
    account. *)
Theorem fetchAllUsers_skips_below_one_dollar w accts a :
  program_account_user_all = inr accts ->
  a ∈ accts ->
  collateral (account a) < QUOTE_PRECISION ->
  userMap w !! publicKey a = None ->
  Forall (fun b => user_getUserAccountPublicKey (userOf b) = publicKey b)
         accts ->
  NoDup (publicKey <$> accts) ->
  let w' := (fetchAllUsers w).2 in
  (userMap w' !! publicKey a = None
   /\ exists started,
        processUsers w' = processUsers w ++ started
        /\ userOf a ∉ started)
  /\ (forall market opd r w2 n ua,
        heap w2 !! r = Some n ->
        userAccount n = publicKey a ->
        userMap w2 !! publicKey a = None ->
        program_account_user_fetch (publicKey a) = inr ua ->
        user_subscribe {| authority := account_authority ua |} = None ->
        userMap (tryFillForMarket_dispatch market opd r w2).2 !! publicKey a
          = Some {| user := {| authority := account_authority ua |};
                    upToDate := true |}
        /\ processUsers (tryFillForMarket_dispatch market opd r w2).2
           = processUsers w2 ++ [{| authority := account_authority ua |}]).
Proof.
  intros Hall Ha Hlt Hnone Hpda Hnd. simpl.
  split.
  2:{ intros market opd r w2 n ua Hn Hown Hnone2 Hfetch Hsub.
      rewrite <- Hown in Hnone2, Hfetch |- *.
      destruct (dispatch_unknown_user market opd r w2 n Hn Hnone2)
        as (_ & _ & Hreg).
      destruct (Hreg ua Hfetch Hsub) as (_ & Hmap & Hproc).
      split; [rewrite Hmap; apply lookup_insert_eq | exact Hproc]. }
  unfold fetchAllUsers. rewrite Hall. munfold. simpl.
  set (userArray := fetchAllUsers_collect (userMap w) accts []).
  assert (Hsel : forall u, u ∈ userArray ->
            u <> userOf a /\ user_getUserAccountPublicKey u <> publicKey a).
  { intros u Hu. apply fetchAllUsers_collect_elem in Hu
      as [Hu | (b & Hb & -> & Hge & _)]; [inversion Hu |].
    rewrite Forall_forall in Hpda.
    assert (publicKey b <> publicKey a) as Hne.
    { intros Heq. assert (b = a) by (eapply NoDup_fmap_inj; eauto).
      subst b. lia. }
    split.
    - intros Heq. apply Hne.
      rewrite <- (Hpda b Hb), <- (Hpda a Ha), Heq. reflexivity.
    - rewrite (Hpda b Hb). exact Hne. }
  destruct (bulkPollingUserSubscribe userArray) as [e |]; simpl.
  - split; [exact Hnone |]. exists []. rewrite app_nil_r.
    split; [reflexivity | apply not_elem_of_nil].
  - destruct (fetchAllUsers_register_loop userArray w)
      as (w' & Hrun & Hp & Hm).
    rewrite Hrun. simpl. split.
    + rewrite Hm; [exact Hnone |]. intros u Hu. apply (Hsel u Hu).
    + exists userArray. split; [exact Hp |].
      intros Hin. destruct (Hsel _ Hin) as [Hne _]. apply Hne. reflexivity.
Qed.

End FetchAllUsersProperties.

Lemma fetchAllUsers_skips_below_one_dollar_witness :
  userMap (fetchAllUsers (H := Example.ledger) Example.world0).2 !! "bob"
    = None
  /\ exists started,
       processUsers (fetchAllUsers (H := Example.ledger) Example.world0).2
         = processUsers Example.world0 ++ started
       /\ Example.bob ∉ started.
Proof.
  refine (proj1 (fetchAllUsers_skips_below_one_dollar (H := Example.ledger)
                   Example.world0 Example.userAccounts
                   {| publicKey := "bob";
                      account := {| account_authority := "bob";
                                    collateral := 999999 |} |}
                   _ _ _ _ _ _)).
  - reflexivity.
  - right. left.
  - vm_compute. reflexivity.
  - reflexivity.
  - repeat constructor.
  - apply (bool_decide_unpack _). vm_compute. exact I.
Defined.


(** ** The control variables are only touched by their owners *)

Section ControlFrame.
Context `{Collaborators}.

Lemma keeps_control_dlob_insert o ua uoa cb :
  keeps control cb -> keeps control (dlob_insert o ua uoa cb).
Proof. intros Hcb. unfold dlob_insert. keeps_auto. Qed.

Lemma keeps_control_dlob_remove o cb :
  keeps control cb -> keeps control (dlob_remove o cb).
Proof. intros Hcb. unfold dlob_remove. keeps_auto. Qed.

Lemma keeps_control_dlob_update o cb :
  keeps control cb -> keeps control (dlob_update o cb).
Proof. intros Hcb. unfold dlob_update. keeps_auto. Qed.

Lemma keeps_control_printTopOfOrderLists mi :
  keeps control (printTopOfOrderLists mi).
Proof. apply keeps_printTopOfOrderLists. reflexivity. Qed.

Lemma keeps_control_handleOrderRecord record :
  keeps control (handleOrderRecord record).
Proof.
  unfold handleOrderRecord.
  repeat first
    [ apply keeps_control_printTopOfOrderLists
    | apply keeps_control_dlob_insert
    | apply keeps_control_dlob_remove
    | apply keeps_control_dlob_update
    | keeps_step ].
Qed.

Lemma keeps_control_fetchUserAndAddToUserMap pk :
  keeps control (fetchUserAndAddToUserMap pk).
Proof. unfold fetchUserAndAddToUserMap, processUser. keeps_auto. Qed.

Lemma keeps_control_deref ref : keeps control (deref ref).
Proof. unfold deref. keeps_auto. Qed.

Lemma keeps_control_findNodesToFill_push node currentNode nodesToFill :
  keeps control (findNodesToFill_push node currentNode nodesToFill).
Proof.
  unfold findNodesToFill_push.
  repeat first
    [ apply keeps_control_deref
    | apply keeps_control_fetchUserAndAddToUserMap
    | keeps_step ].
Qed.

Lemma keeps_control_findNodesToFill_loop node chain markPrice nodesToFill :
  keeps control (findNodesToFill_loop node chain markPrice nodesToFill).
Proof.
  revert nodesToFill.
  induction chain as [| currentNode next IH]; intros nodesToFill; simpl.
  - apply keeps_ret.
  - repeat first
      [ apply IH
      | apply keeps_control_deref
      | apply keeps_control_findNodesToFill_push
      | keeps_step ].
Qed.

Lemma keeps_control_findNodesToFillFromOrderList orderList price :
  keeps control (findNodesToFillFromOrderList orderList price).
Proof.
  unfold findNodesToFillFromOrderList, findNodesToFill.
  destruct orderList as [| headNode rest]; [apply keeps_ret |].
  repeat first
    [ apply keeps_control_deref
    | apply keeps_control_findNodesToFill_loop
    | keeps_step ].
Qed.

Lemma keeps_control_unfilled nodesToFill :
  keeps control (unfilled nodesToFill).
Proof.
  induction nodesToFill as [| r rest IH]; simpl.
  - apply keeps_ret.
  - repeat first [ apply IH | apply keeps_control_deref | keeps_step ].
Qed.

Lemma keeps_control_dispatch market opd r :
  keeps control (tryFillForMarket_dispatch market opd r).
Proof.
  unfold tryFillForMarket_dispatch.
  repeat first
    [ apply keeps_control_deref
    | apply keeps_control_fetchUserAndAddToUserMap
    | keeps_step ].
Qed.

Lemma keeps_control_tryFillForMarket_body marketIndex :
  keeps control (tryFillForMarket_body marketIndex).
Proof.
  unfold tryFillForMarket_body.
  repeat first
    [ apply keeps_control_findNodesToFillFromOrderList
    | apply keeps_control_unfilled
    | apply keeps_for_of; intros ? _; apply keeps_control_dispatch
    | keeps_step ].
Qed.

End ControlFrame.

(** ** Mutual exclusion of scheduling passes *)

Section PassProperties.
Context `{Collaborators}.

Lemma perMarketMutex_held_true fl m :
  perMarketMutex_held fl m = true <-> fl !! m = Some 1.
Proof. unfold perMarketMutex_held. apply bool_decide_eq_true. Qed.

Lemma tryFillForMarket_enter_None fl m :
  tryFillForMarket_enter m fl = None <-> fl !! m = Some 1.
Proof.
  unfold tryFillForMarket_enter. rewrite <- perMarketMutex_held_true.
  destruct (perMarketMutex_held fl m); split; congruence.
Qed.

(** A guarded section whose handler only logs comes back normally
    whenever its body comes back, with the finalizer run last. *)
Lemma try_catch_finally_log body (line : Error -> LogLine) g w :
  (body w).1 <> Diverge ->
  exists w1,
    try_catch_finally body (fun e => console_log (line e)) (modify g) w
      = (Return tt, g w1)
    /\ (body w = (Return tt, w1)
        \/ exists e w0,
             body w = (Throw e, w0)
             /\ w1 = set_console (fun c => c ++ [line e]) w0).
Proof.
  intros Hb. unfold try_catch_finally.
  destruct (body w) as [[[]| e |] w1]; simpl in *.
  - exists w1. split; [reflexivity | left; reflexivity].
  - eexists. split; [reflexivity |]. right. eauto.
  - contradiction.
Qed.

Lemma tryFillForMarket_skips w m :
  perMarketMutex w !! m = Some 1 -> tryFillForMarket m w = (Return tt, w).
Proof.
  intros Hheld. unfold tryFillForMarket. munfold.
  apply perMarketMutex_held_true in Hheld. rewrite Hheld. reflexivity.
Qed.

Lemma tryFillForMarket_releases w m :
  perMarketMutex w !! m <> Some 1 ->
  (tryFillForMarket m w).1 = Return tt
  /\ perMarketMutex (tryFillForMarket m w).2
     = <[m := 0]> (<[m := 1]> (perMarketMutex w)).
Proof.
  intros Hfree. unfold tryFillForMarket.
  rewrite (bind_return _ _ w w w) by reflexivity.
  destruct (perMarketMutex_held (perMarketMutex w) m) eqn:Hheld.
  { apply perMarketMutex_held_true in Hheld. contradiction. }
  set (w1 := set_perMarketMutex (insert m 1) w).
  rewrite (bind_return _ _ w tt w1) by reflexivity.
  destruct (keeps_control_tryFillForMarket_body m w1) as [Hk Hd].
  destruct (try_catch_finally_log (tryFillForMarket_body m)
              (LogUnexpectedErrorForMarket m)
              (set_perMarketMutex (insert m 0)) w1 Hd)
    as (w2 & Hrun & Hbody).
  rewrite Hrun. simpl. split; [reflexivity |].
  assert (perMarketMutex w2 = perMarketMutex w1) as ->; [| reflexivity].
  destruct Hbody as [Hbody | (e & w0 & Hbody & ->)];
    rewrite Hbody in Hk; unfold control in Hk; simpl in Hk;
    injection Hk as _ _ _ _ Hp; exact Hp.
Qed.

Lemma perMarketMutex_init_free m : perMarketMutex_init !! m <> Some 1.
Proof.
  unfold perMarketMutex_init. intros Hl.
  apply elem_of_list_to_map_2 in Hl.
  apply list_elem_of_In, in_map_iff in Hl as (i & Hi & _).
  discriminate Hi.
Qed.

Lemma elem_of_remove_first m x l :
  NoDup l -> (x ∈ remove_first m l <-> x ∈ l /\ x <> m).
Proof.
  induction l as [| y l IH]; simpl; intros Hnd.
  - split; [intros Hx; inversion Hx | intros [Hx _]; inversion Hx].
  - apply NoDup_cons in Hnd as [Hy Hnd].
    destruct (Z.eqb_spec y m) as [-> | Hne].
    + rewrite elem_of_cons. split.
      * intros Hx. split; [right; exact Hx | intros ->; contradiction].
      * intros [[-> | Hx] Hxm]; [contradiction | exact Hx].
    + rewrite !elem_of_cons, (IH Hnd). split.
      * intros [-> | [Hx Hxm]]; split; auto.
      * intros [[-> | Hx] Hxm]; auto.
Qed.

Lemma NoDup_remove_first m l : NoDup l -> NoDup (remove_first m l).
Proof.
  induction l as [| y l IH]; simpl; intros Hnd; [constructor |].
  apply NoDup_cons in Hnd as [Hy Hnd].
  destruct (y =? m); [exact Hnd |].
  apply NoDup_cons. split; [| apply IH; exact Hnd].
  rewrite (elem_of_remove_first m y l Hnd). tauto.
Qed.

Lemma pass_step_exclusive s e :
  passes_exclusive s -> passes_exclusive (pass_step s e).
Proof.
  intros [Hnd Hiff]. destruct e as [m | m]; simpl.
  - unfold tryFillForMarket_enter.
    destruct (perMarketMutex_held (flags s) m) eqn:Hheld;
      [split; assumption |].
    assert (flags s !! m <> Some 1) as Hfree.
    { intros Hl. apply perMarketMutex_held_true in Hl. congruence. }
    split; simpl.
    + apply NoDup_cons. split; [rewrite Hiff; exact Hfree | exact Hnd].
    + intros m'. rewrite elem_of_cons.
      destruct (decide (m' = m)) as [-> | Hne].
      * rewrite lookup_insert_eq. tauto.
      * rewrite lookup_insert_ne by congruence. rewrite Hiff. tauto.
  - case_bool_decide as Hin; [| split; assumption].
    split; simpl.
    + apply NoDup_remove_first. exact Hnd.
    + intros m'. rewrite (elem_of_remove_first m m' _ Hnd).
      unfold tryFillForMarket_exit.
      destruct (decide (m' = m)) as [-> | Hne].
      * rewrite lookup_insert_eq. split; [tauto | discriminate].
      * rewrite lookup_insert_ne by congruence. rewrite Hiff. tauto.
Qed.

Lemma passes_run_exclusive es : passes_exclusive (passes_run es).
Proof.
  unfold passes_run. rewrite <- fold_left_rev_right.
  induction (rev es) as [| e l IH]; simpl.
  - split; simpl; [constructor |].
    intros m. split; [intros Hm; inversion Hm |].
    intros Hl. exfalso. exact (perMarketMutex_init_free m Hl).
  - apply pass_step_exclusive. exact IH.
Qed.


End PassProperties.

(** ** Draining the order history *)

Section DrainProperties.
Context `{Collaborators}.

Lemma JsIndex_strict_ne_false c h :
  JsIndex_strict_ne c h = false <-> c = Num h.
Proof.
  destruct c as [z |]; simpl.
  - rewrite negb_false_iff, Z.eqb_eq. split; congruence.
  - split; discriminate.
Qed.

Lemma cursors_app n c k1 k2 :
  cursors n c (k1 + k2) = cursors n c k1 ++ cursors n (advance n c k1) k2.
Proof.
  revert c. induction k1 as [| k1 IH]; intros c; simpl; [reflexivity |].
  rewrite IH. reflexivity.
Qed.

Lemma advance_add n c k1 k2 :
  advance n c (k1 + k2) = advance n (advance n c k1) k2.
Proof.
  revert c. induction k1 as [| k1 IH]; intros c; simpl; [reflexivity |].
  apply IH.
Qed.

(** What a run of the loop that comes back has done: it has applied the
    records at [k] consecutive positions starting at the cursor, the
    cursor has moved by [k], and it stopped either because the cursor
    met the head or because applying the record under the cursor
    threw. *)
Lemma updateOrderList_loop_spec fuel :
  forall len head w res w',
    head = history_head (getOrderHistoryAccount (resumptions w)) ->
    updateOrderList_loop fuel len head w = (res, w') ->
    res <> Diverge ->
    updateOrderListMutex w' = updateOrderListMutex w
    /\ exists k,
         applied w' = applied w ++ cursors len (nextOrderHistoryIndex w) k
         /\ nextOrderHistoryIndex w'
            = advance len (nextOrderHistoryIndex w) k
         /\ ((res = Return tt
              /\ nextOrderHistoryIndex w'
                 = Num (history_head
                          (getOrderHistoryAccount (resumptions w'))))
             \/ exists e w0,
                  res = Throw e
                  /\ handleOrderRecord
                       (array_get
                          (orderRecords
                             (getOrderHistoryAccount (resumptions w')))
                          (nextOrderHistoryIndex w')) w0
                     = (Throw e, w')).
Proof.
  induction fuel as [| fuel IH]; intros len head w res w' Hhead Hrun Hres.
  - simpl in Hrun. injection Hrun as <- <-. contradiction.
  - simpl in Hrun.
    rewrite (bind_return _ _ w w w) in Hrun by reflexivity.
    destruct (JsIndex_strict_ne (nextOrderHistoryIndex w) head) eqn:Hne.
    + rewrite (bind_return _ _ w _ w) in Hrun by reflexivity.
      destruct (keeps_control_handleOrderRecord
                  (array_get
                     (orderRecords (getOrderHistoryAccount (resumptions w)))
                     (nextOrderHistoryIndex w)) w) as [Hk Hd].
      destruct (handleOrderRecord _ w) as [[[]| e |] w1] eqn:Hhandle;
        simpl in Hk, Hd; [| | contradiction];
        unfold control in Hk; injection Hk as Hm Hc Ha Hr _.
      * rewrite (bind_return _ _ w tt w1) in Hrun by exact Hhandle.
        rewrite (bind_return _ _ w1 tt _) in Hrun by reflexivity.
        rewrite (bind_return _ _ _ tt _) in Hrun by reflexivity.
        rewrite (bind_return _ _ _ tt _) in Hrun by reflexivity.
        rewrite (bind_return _ _ _ _ _) in Hrun by reflexivity.
        apply IH in Hrun; [| reflexivity | exact Hres].
        simpl in Hrun. destruct Hrun as (Hm' & k & Ha' & Hc' & Hend).
        split; [congruence |].
        exists (S k). simpl.
        split; [rewrite Ha', Ha, Hc, <- app_assoc; reflexivity |].
        split; [rewrite Hc', Hc; reflexivity | exact Hend].
      * rewrite (bind_throw _ _ w e w1) in Hrun by exact Hhandle.
        injection Hrun as <- <-.
        split; [exact Hm |]. exists 0%nat. simpl. rewrite app_nil_r.
        split; [exact Ha |]. split; [exact Hc |].
        right. exists e, w. split; [reflexivity |].
        rewrite Hr, Hc. exact Hhandle.
    + injection Hrun as <- <-.
      split; [reflexivity |]. exists 0%nat. simpl. rewrite app_nil_r.
      split; [reflexivity |]. split; [reflexivity |].
      left. split; [reflexivity |].
      apply JsIndex_strict_ne_false in Hne. rewrite Hne, Hhead. reflexivity.
Qed.

Lemma updateOrderList_busy fuel w :
  updateOrderListMutex w = 1 -> updateOrderList fuel w = (Return tt, w).
Proof.
  intros Hbusy. unfold updateOrderList. munfold. rewrite Hbusy. reflexivity.
Qed.

(** A run that gets past the guard and comes back returns normally,
    having run the loop between raising and lowering the flag and logged
    the error if the loop threw. *)
Lemma updateOrderList_outcome fuel w res w' :
  updateOrderListMutex w <> 1 ->
  updateOrderList fuel w = (res, w') ->
  res <> Diverge ->
  exists w2,
    res = Return tt
    /\ w' = set_updateOrderListMutex (fun _ => 0) w2
    /\ (updateOrderList_loop fuel
          (Z.of_nat (length (orderRecords
             (getOrderHistoryAccount (resumptions w)))))
          (history_head (getOrderHistoryAccount (resumptions w)))
          (set_updateOrderListMutex (fun _ => 1) w) = (Return tt, w2)
        \/ exists e w0,
             updateOrderList_loop fuel
               (Z.of_nat (length (orderRecords
                  (getOrderHistoryAccount (resumptions w)))))
               (history_head (getOrderHistoryAccount (resumptions w)))
               (set_updateOrderListMutex (fun _ => 1) w) = (Throw e, w0)
             /\ w2 = set_console
                       (fun c => c ++ [LogUnexpectedErrorInUpdateOrderList e])
                       w0).
Proof.
  intros Hfree Hrun Hres. unfold updateOrderList in Hrun.
  rewrite (bind_return _ _ w w w) in Hrun by reflexivity.
  destruct (Z.eqb_spec (updateOrderListMutex w) 1) as [? | _];
    [contradiction |].
  set (w1 := set_updateOrderListMutex (fun _ => 1) w) in *.
  rewrite (bind_return _ _ w tt w1) in Hrun by reflexivity.
  match type of Hrun with
  | try_catch_finally ?body _ _ _ = _ =>
      assert (Hd : (body w1).1 <> Diverge)
  end.
  { intros Hdiv. unfold try_catch_finally in Hrun.
    match type of Hrun with
    | context [match ?b with _ => _ end] => destruct b as [[[]| e |] w2]
    end; simpl in Hdiv; try discriminate.
    injection Hrun as <- _. contradiction. }
  match type of Hrun with
  | try_catch_finally ?body _ ?fin _ = _ =>
      destruct (try_catch_finally_log body
                  LogUnexpectedErrorInUpdateOrderList
                  (set_updateOrderListMutex (fun _ => 0)) w1 Hd)
        as (w2 & Htcf & Hbody)
  end.
  rewrite Htcf in Hrun. injection Hrun as <- <-.
  exists w2. split; [reflexivity |]. split; [reflexivity |].
  rewrite (bind_return _ _ w1 _ w1) in Hbody by reflexivity.
  exact Hbody.
Qed.


(** The positions applied by a run and the cursor it leaves. *)
Lemma updateOrderList_progress fuel w res w' :
  updateOrderListMutex w <> 1 ->
  updateOrderList fuel w = (res, w') ->
  res <> Diverge ->
  updateOrderListMutex w' = 0
  /\ exists k,
       applied w'
         = applied w
           ++ cursors
                (Z.of_nat (length (orderRecords
                   (getOrderHistoryAccount (resumptions w)))))
                (nextOrderHistoryIndex w) k
       /\ nextOrderHistoryIndex w'
          = advance
              (Z.of_nat (length (orderRecords
                 (getOrderHistoryAccount (resumptions w)))))
              (nextOrderHistoryIndex w) k.
Proof.
  intros Hfree Hrun Hres.
  destruct (updateOrderList_outcome _ _ _ _ Hfree Hrun Hres)
    as (w2 & _ & -> & Hbody).
  split; [reflexivity |].
  destruct Hbody as [Hloop | (e & w0 & Hloop & ->)];
    apply updateOrderList_loop_spec in Hloop;
    try reflexivity; try discriminate;
    destruct Hloop as (_ & k & Ha & Hc & _);
    exists k; simpl; split; assumption.
Qed.

(** Two runs in a row over a log of constant capacity apply one
    unbroken series of positions: the second run continues where the
    first one stopped. *)
Corollary updateOrderList_resumes fuel1 fuel2 w res1 w1 res2 w2 :
  updateOrderListMutex w <> 1 ->
  updateOrderList fuel1 w = (res1, w1) -> res1 <> Diverge ->
  updateOrderList fuel2 w1 = (res2, w2) -> res2 <> Diverge ->
  length (orderRecords (getOrderHistoryAccount (resumptions w1)))
    = length (orderRecords (getOrderHistoryAccount (resumptions w))) ->
  exists k,
    applied w2
      = applied w
        ++ cursors
             (Z.of_nat (length (orderRecords
                (getOrderHistoryAccount (resumptions w)))))
             (nextOrderHistoryIndex w) k
    /\ nextOrderHistoryIndex w2
       = advance
           (Z.of_nat (length (orderRecords
              (getOrderHistoryAccount (resumptions w)))))
           (nextOrderHistoryIndex w) k.
Proof.
  intros Hfree Hrun1 Hres1 Hrun2 Hres2 Hlen.
  destruct (updateOrderList_progress _ _ _ _ Hfree Hrun1 Hres1)
    as (Hm1 & k1 & Ha1 & Hc1).
  assert (updateOrderListMutex w1 <> 1) as Hfree1 by (rewrite Hm1; lia).
  destruct (updateOrderList_progress _ _ _ _ Hfree1 Hrun2 Hres2)
    as (_ & k2 & Ha2 & Hc2).
  rewrite Hlen in Ha2, Hc2.
  exists (k1 + k2)%nat.
  rewrite cursors_app, advance_add, Ha2, Hc2, Ha1, Hc1, <- app_assoc.
  split; reflexivity.
Qed.

End DrainProperties.

(** ** Termination of the draining loop *)

Section DrainTermination.
Context `{Collaborators}.

(** While the account does not change, the loop comes back as soon as
    its fuel exceeds the number of advances that take the cursor to the
    head. *)
Lemma updateOrderList_loop_halts acct fuel :
  (forall t, getOrderHistoryAccount t = acct) ->
  forall len w k,
    (k < fuel)%nat ->
    advance len (nextOrderHistoryIndex w) k = Num (history_head acct) ->
    (updateOrderList_loop fuel len (history_head acct) w).1 <> Diverge.
Proof.
  intros Hconst.
  induction fuel as [| fuel IH]; intros len w k Hk Hreach; [lia |].
  simpl. rewrite (bind_return _ _ w w w) by reflexivity.
  destruct (JsIndex_strict_ne (nextOrderHistoryIndex w) (history_head acct))
    eqn:Hne; [| discriminate].
  rewrite (bind_return _ _ w _ w) by reflexivity.
  destruct (keeps_control_handleOrderRecord
              (array_get
                 (orderRecords (getOrderHistoryAccount (resumptions w)))
                 (nextOrderHistoryIndex w)) w) as [Hkeep Hd].
  destruct (handleOrderRecord _ w) as [[[]| e |] w1] eqn:Hhandle;
    simpl in Hkeep, Hd; [| | contradiction].
  - rewrite (bind_return _ _ w tt w1) by exact Hhandle.
    rewrite (bind_return _ _ w1 tt _) by reflexivity.
    rewrite (bind_return _ _ _ tt _) by reflexivity.
    rewrite (bind_return _ _ _ tt _) by reflexivity.
    rewrite (bind_return _ _ _ _ _) by reflexivity.
    unfold control in Hkeep. injection Hkeep as _ Hc _ _ _.
    destruct k as [| k].
    + simpl in Hreach. apply JsIndex_strict_ne_false in Hreach. congruence.
    + simpl in Hreach. rewrite Hconst.
      apply (IH len _ k); [lia |]. simpl. rewrite Hc. exact Hreach.
  - rewrite (bind_throw _ _ w e w1) by exact Hhandle. discriminate.
Qed.

End DrainTermination.

(** ** The closures on the concrete ledger *)

(** An order event for a market order is disregarded: the book and
    everything else stay as they are. *)
Lemma handleOrderRecord_disregards_market `{Collaborators} record w :
  orderType (record_order record) = market ->
  handleOrderRecord (Some record) w = (Return tt, w).
Proof.
  intros Hm. unfold handleOrderRecord. munfold. simpl. rewrite Hm. reflexivity.
Qed.


(** C1: the scan reads the post-only exception off the node it started
    from.  Node 3 holds a long post-only order with a non-zero oracle
    offset and price 0, behind node 1, whose order is not post-only;
    scanned against the reference price 3, which is at or above its
    price, node 3 is selected, and the scheduling pass submits a fill
    attempt for it. *)
Theorem findNodesToFill_selects_aggressive_postOnly :
  heap (Example.withUsers true true Example.loaded) !! 3%nat
    = Some Example.node3
  /\ postOnly (order Example.node3) = true
  /\ oraclePriceOffset (order Example.node3) <> ZERO
  /\ direction (order Example.node3) = long
  /\ price (order Example.node3) <= 3
  /\ (findNodesToFill (H := Example.ledger) [1%nat; 3%nat] 3
        (Example.withUsers true true Example.loaded)).1
     = Return [1%nat; 3%nat]
  /\ fill_node <$>
       fillOrders (tryFillForMarket (H := Example.ledger) 0
                     (Example.withUsers true true Example.loaded)).2
     = [0%nat; 2%nat; 1%nat; 3%nat].
Proof.
  repeat split; try (vm_compute; reflexivity); vm_compute; discriminate.
Qed.

(** C5: the scan reads the freshness of the owner off the node it started
    from.  Node 2 is owned by bob, whose record is stale, and stands
    behind node 0, owned by alice, whose record is fresh; node 2 is
    selected, and the scheduling pass submits a fill attempt for it. *)
Theorem findNodesToFill_selects_node_of_stale_user :
  heap (Example.withUsers true false Example.loaded) !! 2%nat
    = Some Example.node2
  /\ userMap (Example.withUsers true false Example.loaded)
       !! userAccount Example.node2
     = Some {| user := Example.bob; upToDate := false |}
  /\ (findNodesToFill (H := Example.ledger) [0%nat; 2%nat] 98
        (Example.withUsers true false Example.loaded)).1
     = Return [0%nat; 2%nat]
  /\ fill_node <$>
       fillOrders (tryFillForMarket (H := Example.ledger) 0
                     (Example.withUsers true false Example.loaded)).2
     = [0%nat; 2%nat; 1%nat; 3%nat].
Proof.
  repeat split; vm_compute; reflexivity.
Qed.

Lemma dispatch_skips_unknown_user_witness :
  heap Example.afterNode0 !! 2%nat = Some Example.node2
  /\ userMap Example.afterNode0 !! "bob" = None
  /\ heap (for_of [0%nat; 2%nat; 1%nat]
             (tryFillForMarket_dispatch (H := Example.ledger)
                Example.market0 95) Example.onlyAlice).2 !! 2%nat
     = Some Example.node2.
Proof.
  split; [vm_compute; reflexivity |]. split; [vm_compute; reflexivity |].
  refine (proj1 (proj2 (proj2 (proj2
    (dispatch_skips_unknown_user (H := Example.ledger) Example.market0 95
       [0%nat] 2%nat [1%nat] Example.onlyAlice Example.afterNode0
       Example.node2 _ _ _ _ _))))).
  - apply (bool_decide_unpack _). vm_compute. exact I.
  - apply (bool_decide_unpack _). vm_compute. exact I.
  - vm_compute. reflexivity.
  - vm_compute. reflexivity.
  - vm_compute. reflexivity.
Defined.



Lemma updateUserOrders_mismatch_iff_witness :
  orderVerdict (H := Example.ledger) Example.alice
    (getFreeCollateral (Collaborators := Example.ledger) Example.alice =? ZERO)
    Example.reduceOnlyBid
  = DisableReduceOnlyMismatch.
Proof.
  apply (proj2 (proj1 (updateUserOrders_mismatch_iff (H := Example.ledger)
                         Example.alice Example.reduceOnlyBid))).
  repeat split; vm_compute; reflexivity.
Defined.

(** ** What the scan and the dispatch loop do guarantee *)

Section SelectionProperties.
Context `{Collaborators}.

Lemma keeps_heap_fetchUserAndAddToUserMap pk :
  keeps heap (fetchUserAndAddToUserMap pk).
Proof. unfold fetchUserAndAddToUserMap, processUser. keeps_auto. Qed.

Lemma keeps_heap_deref ref : keeps heap (deref ref).
Proof. unfold deref. keeps_auto. Qed.

Lemma deref_Return ref w n w' :
  deref ref w = (Return n, w') -> w' = w /\ heap w !! ref = Some n.
Proof.
  unfold deref. munfold. destruct (heap w !! ref) as [n' |]; simpl;
    [intros [= <- <-]; auto | discriminate].
Qed.

(** The push of lines 494-504 leaves the node objects alone and adds the
    current node only if it is not in flight. *)
Lemma findNodesToFill_push_unfilled node currentNode nodesToFill w res w' :
  findNodesToFill_push node currentNode nodesToFill w = (Return res, w') ->
  heap w' = heap w
  /\ (res = nodesToFill
      \/ res = nodesToFill ++ [currentNode]
         /\ exists n, heap w !! currentNode = Some n /\ haveFilled n = false).
Proof.
  unfold findNodesToFill_push. intros Hrun.
  unfold mbind at 1, M_bind at 1 in Hrun.
  destruct (deref node w) as [[first | e |] w1] eqn:Hfirst; try discriminate.
  apply deref_Return in Hfirst as [-> Hfirst].
  rewrite (bind_return _ _ w w w) in Hrun by reflexivity.
  unfold mbind at 1, M_bind at 1 in Hrun.
  match type of Hrun with
  | context [match ?c w with _ => _ end] =>
      assert (Hk : keeps heap c);
      [| destruct (Hk w) as [Hheap _];
         destruct (c w) as [[mapValue | e |] w2]; try discriminate]
  end.
  { destruct (userMap w !! userAccount first);
      repeat first [apply keeps_heap_fetchUserAndAddToUserMap | keeps_step]. }
  simpl in Hheap.
  unfold mbind at 1, M_bind at 1 in Hrun.
  destruct (deref currentNode w2) as [[current | e |] w3] eqn:Hcur;
    try discriminate.
  apply deref_Return in Hcur as [-> Hcur]. rewrite Hheap in Hcur.
  destruct (haveFilled current) eqn:Hfilled; simpl in Hrun.
  - injection Hrun as <- <-. auto.
  - destruct (upToDate mapValue); injection Hrun as <- <-;
      (split; [exact Hheap |]); [right | left]; eauto.
Qed.

(** Every node the scan selects is a node of the chain that is not in
    flight. *)
Lemma findNodesToFill_loop_unfilled node chain markPrice :
  forall nodesToFill w res w',
    findNodesToFill_loop node chain markPrice nodesToFill w
      = (Return res, w') ->
    heap w' = heap w
    /\ forall r, r ∈ res ->
         r ∈ nodesToFill
         \/ r ∈ chain
            /\ exists n, heap w !! r = Some n /\ haveFilled n = false.
Proof.
  induction chain as [| currentNode next IH];
    intros nodesToFill w res w' Hrun; simpl in Hrun.
  - injection Hrun as <- <-. auto.
  - unfold mbind at 1, M_bind at 1 in Hrun.
    destruct (deref currentNode w) as [[current | e |] w1] eqn:Hcur;
      try discriminate.
    apply deref_Return in Hcur as [-> Hcur].
    destruct (pricesCross current markPrice); simpl in Hrun;
      [| injection Hrun as <- <-; auto].
    unfold mbind at 1, M_bind at 1 in Hrun.
    destruct (deref node w) as [[first | e |] w1] eqn:Hfirst;
      try discriminate.
    apply deref_Return in Hfirst as [-> Hfirst].
    assert (Hskip :
      findNodesToFill_loop node next markPrice nodesToFill w = (Return res, w') ->
      heap w' = heap w
      /\ forall r, r ∈ res ->
           r ∈ nodesToFill
           \/ r ∈ currentNode :: next
              /\ exists n, heap w !! r = Some n /\ haveFilled n = false).
    { intros Hnext. destruct (IH _ _ _ _ Hnext) as [Hh Hsel].
      split; [exact Hh |]. intros r Hr.
      destruct (Hsel r Hr) as [? | [? ?]]; [left | right; split]; auto.
      right. assumption. }
    assert (Hpush :
      (nodesToFill' ← findNodesToFill_push node currentNode nodesToFill;
       findNodesToFill_loop node next markPrice nodesToFill') w
        = (Return res, w') ->
      heap w' = heap w
      /\ forall r, r ∈ res ->
           r ∈ nodesToFill
           \/ r ∈ currentNode :: next
              /\ exists n, heap w !! r = Some n /\ haveFilled n = false).
    { clear Hrun Hskip. intros Hrun.
      unfold mbind at 1, M_bind at 1 in Hrun.
      destruct (findNodesToFill_push node currentNode nodesToFill w)
        as [[acc | e |] w1] eqn:Hp; try discriminate.
      apply findNodesToFill_push_unfilled in Hp as [Hh1 Hacc].
      destruct (IH _ _ _ _ Hrun) as [Hh Hsel].
      split; [congruence |]. intros r Hr.
      destruct (Hsel r Hr) as [Hin | [Hin (n & Hn & Hf)]].
      - destruct Hacc as [-> | [-> (n & Hn & Hf)]]; [left; exact Hin |].
        apply elem_of_app in Hin as [Hin | Hin]; [left; exact Hin |].
        apply list_elem_of_singleton in Hin as ->.
        right. split; [left | eauto].
      - right. split; [right; exact Hin |]. rewrite Hh1 in Hn. eauto. }
    destruct (postOnly (order first) && negb (oraclePriceOffset (order first) =? ZERO));
      [| exact (Hpush Hrun)].
    destruct (isVariant_direction (direction (order first)) long
              && (markPrice >=? price (order first)));
      [exact (Hskip Hrun) |].
    destruct (isVariant_direction (direction (order first)) short
              && (markPrice <=? price (order first)));
      [exact (Hskip Hrun) | exact (Hpush Hrun)].
Qed.

(** A turn of the dispatch loop that submits a fill attempt has marked
    the node in flight and its owner's record stale. *)
Lemma dispatch_marks_before_submitting market opd r w n :
  heap w !! r = Some n ->
  fillOrders (tryFillForMarket_dispatch market opd r w).2 <> fillOrders w ->
  haveFilled <$> (heap (tryFillForMarket_dispatch market opd r w).2 !! r)
    = Some true
  /\ upToDate <$>
       (userMap (tryFillForMarket_dispatch market opd r w).2 !! userAccount n)
     = Some false.
Proof.
  intros Hn. unfold tryFillForMarket_dispatch.
  rewrite (bind_return _ _ w n w)
    by (unfold deref; munfold; rewrite Hn; reflexivity).
  rewrite (bind_return _ _ w w w) by reflexivity.
  destruct (userMap w !! userAccount n) as [mapValue |] eqn:Hu.
  - match goal with
    | |- context [if ?c then _ else _] => destruct c
    end; simpl.
    + intros Hne. contradiction.
    + intros _. rewrite lookup_alter_eq, Hn, lookup_insert_eq. auto.
  - rewrite (bind_return _ _ w tt _) by reflexivity.
    match goal with
    | |- context [(fetchUserAndAddToUserMap ?pk ≫= ?k) ?w0] =>
        destruct (keeps_fetchUserAndAddToUserMap pk w0) as [Hk _];
        unfold mbind, M_bind;
        destruct (fetchUserAndAddToUserMap pk w0) as [[mv | e |] w1]
    end; simpl in *; injection Hk as _ Hf _; intros Hne; contradiction.
Qed.

(** The exception and the freshness test look at the node the scan started
    from: when that node's order is exempt from the exception and its
    owner's record is fresh, every crossing node of the chain that is not
    in flight is selected, whatever its own order and owner are. *)
Lemma findNodesToFill_loop_head_decides node markPrice w first mapValue :
  heap w !! node = Some first ->
  postOnly (order first) && negb (oraclePriceOffset (order first) =? ZERO)
    = false ->
  userMap w !! userAccount first = Some mapValue ->
  upToDate mapValue = true ->
  forall chain nodesToFill,
    Forall (fun r => exists n, heap w !! r = Some n
                               /\ pricesCross n markPrice = true
                               /\ haveFilled n = false) chain ->
    findNodesToFill_loop node chain markPrice nodesToFill w
      = (Return (nodesToFill ++ chain), w).
Proof.
  intros Hfirst Hexempt Hmap Hfresh.
  induction chain as [| currentNode next IH]; intros nodesToFill Hall; simpl.
  - rewrite app_nil_r. reflexivity.
  - apply Forall_cons in Hall as [(n & Hn & Hcross & Hfilled) Hall].
    assert (Hderef : forall r x, heap w !! r = Some x ->
                       deref r w = (Return x, w)).
    { intros r x Hr. unfold deref. munfold. rewrite Hr. reflexivity. }
    rewrite (bind_return _ _ w n w) by (apply Hderef; exact Hn).
    rewrite Hcross. simpl.
    rewrite (bind_return _ _ w first w) by (apply Hderef; exact Hfirst).
    rewrite Hexempt.
    assert (Hpush : findNodesToFill_push node currentNode nodesToFill w
                    = (Return (nodesToFill ++ [currentNode]), w)).
    { unfold findNodesToFill_push.
      rewrite (bind_return _ _ w first w) by (apply Hderef; exact Hfirst).
      rewrite (bind_return _ _ w w w) by reflexivity.
      rewrite Hmap.
      rewrite (bind_return _ _ w mapValue w) by reflexivity.
      rewrite (bind_return _ _ w n w) by (apply Hderef; exact Hn).
      rewrite Hfilled, Hfresh. reflexivity. }
    rewrite (bind_return _ _ w _ w) by exact Hpush.
    rewrite (IH _ Hall), <- app_assoc. reflexivity.
Qed.

End SelectionProperties.

(** ** The initial load of the book *)

Section LoadProperties.
Context `{Collaborators}.

Lemma insert_openOrders o ua uoa h b id :
  id ∈ DLOB.openOrders (DLOB.insert o ua uoa h b).1.2
  <-> id = orderId o \/ id ∈ DLOB.openOrders b.
Proof.
  unfold DLOB.insert. case_decide as Hin; simpl.
  - split; [auto | intros [-> | ?]; assumption].
  - rewrite elem_of_union, elem_of_singleton. reflexivity.
Qed.

Lemma dlob_insert_silent o ua uoa w :
  dlob_insert o ua uoa (mret tt) w
  = (Return tt,
     set_heap (fun _ => (DLOB.insert o ua uoa (heap w) (dlob w)).1.1)
       (set_dlob (fun _ => (DLOB.insert o ua uoa (heap w) (dlob w)).1.2) w)).
Proof.
  unfold dlob_insert. munfold.
  destruct (DLOB.insert o ua uoa (heap w) (dlob w)) as [[h b] mutated].
  destruct mutated; reflexivity.
Qed.

Lemma loadOrders_account ua uoa os w :
  exists w',
    for_of os (fun order => dlob_insert order ua uoa (mret tt)) w
      = (Return tt, w')
    /\ forall id,
         id ∈ DLOB.openOrders (dlob w')
         <-> id ∈ DLOB.openOrders (dlob w)
             \/ exists o, o ∈ os /\ orderId o = id.
Proof.
  revert w. induction os as [| o os IH]; intros w; simpl.
  - exists w. split; [reflexivity |]. intros id. split; [auto |].
    intros [? | (o & Ho & _)]; [assumption | inversion Ho].
  - rewrite (bind_return _ _ w tt _) by apply dlob_insert_silent.
    match goal with
    | |- context [for_of os _ ?w1] => destruct (IH w1) as (w' & Hrun & Hids)
    end.
    exists w'. split; [exact Hrun |]. intros id.
    rewrite Hids. simpl. rewrite insert_openOrders. split.
    + intros [[-> | ?] | (o' & Ho' & Hid)]; eauto.
      * right. exists o. split; [left | reflexivity].
      * right. exists o'. split; [right; exact Ho' | exact Hid].
    + intros [? | (o' & Ho' & Hid)]; [auto |].
      apply elem_of_cons in Ho' as [-> | Ho']; [auto |].
      right. eauto.
Qed.

(** The initial load always returns and leaves every order of every
    account tracked, whatever its kind. *)
Lemma runBot_loadOrders_tracks_all programAccounts w :
  exists w',
    runBot_loadOrders programAccounts w = (Return tt, w')
    /\ forall pa o,
         pa ∈ programAccounts -> o ∈ orders (account pa) ->
         orderId o ∈ DLOB.openOrders (dlob w').
Proof.
  unfold runBot_loadOrders.
  assert (Hgen : forall pas w,
    exists w',
      for_of pas (fun programAccount =>
        for_of (orders (account programAccount)) (fun order =>
          dlob_insert order (orders_user (account programAccount))
            (publicKey programAccount) (mret tt))) w = (Return tt, w')
      /\ forall id,
           (id ∈ DLOB.openOrders (dlob w)
            \/ exists pa o, pa ∈ pas /\ o ∈ orders (account pa)
                            /\ orderId o = id) ->
           id ∈ DLOB.openOrders (dlob w')).
  { clear. intros pas. induction pas as [| pa pas IH]; intros w; simpl.
    - exists w. split; [reflexivity |].
      intros id [? | (pa & o & Hpa & _)]; [assumption | inversion Hpa].
    - destruct (loadOrders_account (orders_user (account pa)) (publicKey pa)
                  (orders (account pa)) w) as (w1 & Hrun1 & Hids1).
      rewrite (bind_return _ _ w tt w1) by exact Hrun1.
      destruct (IH w1) as (w' & Hrun & Hids).
      exists w'. split; [exact Hrun |]. intros id Hid. apply Hids.
      destruct Hid as [? | (pa' & o & Hpa' & Ho & Hid)].
      + left. apply Hids1. left. assumption.
      + apply elem_of_cons in Hpa' as [-> | Hpa'].
        * left. apply Hids1. right. exists o. split; assumption.
        * right. exists pa', o. repeat split; assumption. }
  destruct (Hgen programAccounts w) as (w' & Hrun & Hids).
  exists w'. split; [exact Hrun |]. intros pa o Hpa Ho. apply Hids.
  right. exists pa, o. repeat split; assumption.
Qed.

End LoadProperties.

(** A pass for a market the ledger does not know throws in its body: the
    error is logged, the call returns normally and the flag is down. *)
Lemma tryFillForMarket_unknown_market :
  (tryFillForMarket (H := Example.ledger) 5 Example.loaded).1 = Return tt
  /\ perMarketMutex
       (tryFillForMarket (H := Example.ledger) 5 Example.loaded).2 !! 5
     = Some 0
  /\ console (tryFillForMarket (H := Example.ledger) 5 Example.loaded).2
     = [LogUnexpectedErrorForMarket 5 TypeError].
Proof. repeat split; vm_compute; reflexivity. Qed.

(** * Further properties of the closures *)

(** ** The draining loop on a stable log *)

Section DrainOnStableLog.
Context `{Collaborators}.

Lemma advance_in_range n c k :
  0 <= c < n ->
  advance n (Num c) k = Num ((c + Z.of_nat k) mod n).
Proof.
  revert c. induction k as [| k IH]; intros c Hc; simpl.
  - rewrite Z.add_0_r, Z.mod_small by lia. reflexivity.
  - destruct (Z.eqb_spec n 0) as [-> | Hn]; [lia |].
    rewrite Z.rem_mod_nonneg by lia.
    rewrite IH by (apply Z.mod_pos_bound; lia).
    rewrite Zplus_mod_idemp_l. f_equal. f_equal. lia.
Qed.

Lemma cursors_in_range n c k :
  0 <= c < n ->
  cursors n (Num c) k
  = map (fun i => Num ((c + Z.of_nat i) mod n)) (seq 0 k).
Proof.
  revert c. induction k as [| k IH]; intros c Hc; simpl; [reflexivity |].
  destruct (Z.eqb_spec n 0) as [-> | Hn]; [lia |].
  rewrite Z.add_0_r, (Z.mod_small c n) by lia. f_equal.
  rewrite Z.rem_mod_nonneg by lia.
  rewrite IH by (apply Z.mod_pos_bound; lia).
  rewrite <- seq_shift, map_map. apply map_ext. intros i.
  rewrite Zplus_mod_idemp_l. f_equal. f_equal. lia.
Qed.

(** On a log that does not change, every position the loop applies is a
    position where the cursor differs from the head. *)
Lemma updateOrderList_loop_stable acct fuel :
  (forall t, getOrderHistoryAccount t = acct) ->
  forall len w res w',
    updateOrderList_loop fuel len (history_head acct) w = (res, w') ->
    res <> Diverge ->
    exists k,
      applied w' = applied w ++ cursors len (nextOrderHistoryIndex w) k
      /\ nextOrderHistoryIndex w' = advance len (nextOrderHistoryIndex w) k
      /\ (forall i, (i < k)%nat ->
            advance len (nextOrderHistoryIndex w) i
            <> Num (history_head acct))
      /\ (res = Return tt
          /\ nextOrderHistoryIndex w' = Num (history_head acct)
          \/ exists e, res = Throw e).
Proof.
  intros Hconst.
  induction fuel as [| fuel IH]; intros len w res w' Hrun Hres.
  - simpl in Hrun. injection Hrun as <- <-. contradiction.
  - simpl in Hrun.
    rewrite (bind_return _ _ w w w) in Hrun by reflexivity.
    destruct (JsIndex_strict_ne (nextOrderHistoryIndex w) (history_head acct))
      eqn:Hne.
    + rewrite (bind_return _ _ w _ w) in Hrun by reflexivity.
      destruct (keeps_control_handleOrderRecord
                  (array_get
                     (orderRecords (getOrderHistoryAccount (resumptions w)))
                     (nextOrderHistoryIndex w)) w) as [Hk Hd].
      destruct (handleOrderRecord _ w) as [[[]| e |] w1] eqn:Hhandle;
        simpl in Hk, Hd; [| | contradiction];
        unfold control in Hk; injection Hk as _ Hc Ha _ _.
      * rewrite (bind_return _ _ w tt w1) in Hrun by exact Hhandle.
        rewrite (bind_return _ _ w1 tt _) in Hrun by reflexivity.
        rewrite (bind_return _ _ _ tt _) in Hrun by reflexivity.
        rewrite (bind_return _ _ _ tt _) in Hrun by reflexivity.
        rewrite (bind_return _ _ _ _ _) in Hrun by reflexivity.
        rewrite Hconst in Hrun.
        apply IH in Hrun; [| exact Hres].
        simpl in Hrun. destruct Hrun as (k & Ha' & Hc' & Hnot & Hend).
        exists (S k). simpl.
        split; [rewrite Ha', Ha, Hc, <- app_assoc; reflexivity |].
        split; [rewrite Hc', Hc; reflexivity |].
        split; [| exact Hend].
        intros [| i] Hi; simpl.
        -- intros Heq. apply JsIndex_strict_ne_false in Heq. congruence.
        -- rewrite <- Hc. apply Hnot. lia.
      * rewrite (bind_throw _ _ w e w1) in Hrun by exact Hhandle.
        injection Hrun as <- <-.
        exists 0%nat. simpl. rewrite app_nil_r.
        split; [exact Ha |]. split; [exact Hc |].
        split; [intros i Hi; lia | right; eauto].
    + injection Hrun as <- <-.
      exists 0%nat. simpl. rewrite app_nil_r.
      split; [reflexivity |]. split; [reflexivity |].
      split; [intros i Hi; lia |].
      left. split; [reflexivity |].
      apply JsIndex_strict_ne_false in Hne. exact Hne.
Qed.


End DrainOnStableLog.

(** ** Edge cases and frame of the draining loop *)

Section DrainEdges.
Context `{Collaborators}.

Lemma set_updateOrderListMutex_restore w :
  updateOrderListMutex w = 0 ->
  set_updateOrderListMutex (fun _ => 0)
    (set_updateOrderListMutex (fun _ => 1) w) = w.
Proof. destruct w; simpl; intros ->; reflexivity. Qed.

(** X2: a run that finds the cursor on the head applies nothing and
    leaves the whole state of the bot as it was. *)
Theorem updateOrderList_nothing_to_do fuel w :
  updateOrderListMutex w = 0 ->
  nextOrderHistoryIndex w
    = Num (history_head (getOrderHistoryAccount (resumptions w))) ->
  (0 < fuel)%nat ->
  updateOrderList fuel w = (Return tt, w).
Proof.
  intros Hfree Hcur Hfuel. destruct fuel as [| fuel]; [lia |].
  unfold updateOrderList.
  rewrite (bind_return _ _ w w w) by reflexivity.
  destruct (Z.eqb_spec (updateOrderListMutex w) 1) as [? | _]; [lia |].
  rewrite (bind_return _ _ w tt _) by reflexivity.
  unfold try_catch_finally.
  rewrite (bind_return _ _ _ _ _) by reflexivity.
  simpl updateOrderList_loop.
  rewrite (bind_return _ _ _ _ _) by reflexivity.
  change (nextOrderHistoryIndex (set_updateOrderListMutex (fun _ => 1) w))
    with (nextOrderHistoryIndex w).
  simpl resumptions. rewrite Hcur.
  assert (JsIndex_strict_ne
            (Num (history_head (getOrderHistoryAccount (resumptions w))))
            (history_head (getOrderHistoryAccount (resumptions w))) = false)
    as -> by (apply JsIndex_strict_ne_false; reflexivity).
  cbv beta iota. unfold mret, M_ret, modify.
  rewrite set_updateOrderListMutex_restore by exact Hfree.
  reflexivity.
Qed.

(** X3: when the cursor differs from the head and points at no record of
    the log (outside its bounds, or [NaN]), a run logs the [TypeError]
    and changes nothing else: the cursor stays where it is, so every later
    run fails in the same way. *)
Theorem updateOrderList_undefined_record fuel w :
  updateOrderListMutex w = 0 ->
  JsIndex_strict_ne (nextOrderHistoryIndex w)
    (history_head (getOrderHistoryAccount (resumptions w))) = true ->
  array_get (orderRecords (getOrderHistoryAccount (resumptions w)))
    (nextOrderHistoryIndex w) = None ->
  (0 < fuel)%nat ->
  updateOrderList fuel w
  = (Return tt,
     set_console
       (fun c => c ++ [LogUnexpectedErrorInUpdateOrderList TypeError]) w).
Proof.
  intros Hfree Hne Hrec Hfuel. destruct fuel as [| fuel]; [lia |].
  unfold updateOrderList.
  rewrite (bind_return _ _ w w w) by reflexivity.
  destruct (Z.eqb_spec (updateOrderListMutex w) 1) as [? | _]; [lia |].
  rewrite (bind_return _ _ w tt _) by reflexivity.
  unfold try_catch_finally.
  rewrite (bind_return _ _ _ _ _) by reflexivity.
  simpl updateOrderList_loop.
  rewrite (bind_return _ _ _ _ _) by reflexivity.
  change (nextOrderHistoryIndex (set_updateOrderListMutex (fun _ => 1) w))
    with (nextOrderHistoryIndex w).
  simpl resumptions. rewrite Hne.
  rewrite (bind_return _ _ _ _ _) by reflexivity.
  simpl resumptions. rewrite Hrec.
  rewrite (bind_throw _ _ _ TypeError _) by reflexivity.
  cbv beta iota. unfold console_log, modify. f_equal.
  rewrite <- (set_updateOrderListMutex_restore w Hfree) at 2.
  reflexivity.
Qed.

Lemma keeps_scheduling_printTopOfOrderLists mi :
  keeps scheduling (printTopOfOrderLists mi).
Proof. apply keeps_printTopOfOrderLists. reflexivity. Qed.

Lemma keeps_scheduling_handleOrderRecord record :
  keeps scheduling (handleOrderRecord record).
Proof.
  unfold handleOrderRecord, dlob_insert, dlob_remove, dlob_update.
  repeat first [ apply keeps_scheduling_printTopOfOrderLists | keeps_step ].
Qed.

Lemma updateOrderList_loop_scheduling fuel :
  forall len head w,
    scheduling (updateOrderList_loop fuel len head w).2 = scheduling w
    /\ perMarketMutex (updateOrderList_loop fuel len head w).2
       = perMarketMutex w.
Proof.
  induction fuel as [| fuel IH]; intros len head w; simpl; [auto |].
  rewrite (bind_return _ _ w w w) by reflexivity.
  destruct (JsIndex_strict_ne (nextOrderHistoryIndex w) head); [| auto].
  rewrite (bind_return _ _ w _ w) by reflexivity.
  match goal with
  | |- context [handleOrderRecord ?r] =>
      destruct (keeps_scheduling_handleOrderRecord r w) as [Hs _];
      destruct (keeps_control_handleOrderRecord r w) as [Hc _];
      destruct (handleOrderRecord r w) as [[[]| e |] w1] eqn:Hhandle
  end; simpl in Hs, Hc; unfold control in Hc; injection Hc as _ _ _ _ Hp.
  - rewrite (bind_return _ _ w tt w1) by exact Hhandle.
    rewrite (bind_return _ _ w1 tt _) by reflexivity.
    rewrite (bind_return _ _ _ tt _) by reflexivity.
    rewrite (bind_return _ _ _ tt _) by reflexivity.
    rewrite (bind_return _ _ _ _ _) by reflexivity.
    match goal with
    | |- context [updateOrderList_loop fuel len ?h ?w2] =>
        destruct (IH len h w2) as [Hs' Hp']
    end.
    rewrite Hs', Hp'. simpl. auto.
  - rewrite (bind_throw _ _ w e w1) by exact Hhandle. simpl. auto.
  - rewrite (bind_diverge _ _ w w1) by exact Hhandle. simpl. auto.
Qed.

(** X4: whatever the log holds and however a run ends, draining the order
    history never touches the user map, the per-market flags, the fill
    attempts submitted, or the monitoring loops and account refreshes
    started. *)
Theorem updateOrderList_frame fuel w :
  userMap (updateOrderList fuel w).2 = userMap w
  /\ perMarketMutex (updateOrderList fuel w).2 = perMarketMutex w
  /\ fillOrders (updateOrderList fuel w).2 = fillOrders w
  /\ processUsers (updateOrderList fuel w).2 = processUsers w
  /\ fetchAccounts (updateOrderList fuel w).2 = fetchAccounts w.
Proof.
  assert (Hgoal : scheduling (updateOrderList fuel w).2 = scheduling w
                  /\ perMarketMutex (updateOrderList fuel w).2
                     = perMarketMutex w).
  { unfold updateOrderList.
    rewrite (bind_return _ _ w w w) by reflexivity.
    destruct (updateOrderListMutex w =? 1); [auto |].
    rewrite (bind_return _ _ w tt _) by reflexivity.
    unfold try_catch_finally.
    rewrite (bind_return _ _ _ _ _) by reflexivity.
    match goal with
    | |- context [updateOrderList_loop fuel ?len ?h ?w1] =>
        destruct (updateOrderList_loop_scheduling fuel len h w1) as [Hs Hp];
        destruct (updateOrderList_loop fuel len h w1) as [[[]| e |] w2]
    end; simpl in *; auto. }
  destruct Hgoal as [Hs Hp]. unfold scheduling in Hs.
  injection Hs as Hu Hpu Hf Hfa. auto.
Qed.

(** X5: [handleOrderRecord] gives up before it has touched anything when
    the record is [undefined], and when a placed order's orders-account
    address cannot be derived; a record for a market order is passed over
    without any effect. *)
Theorem handleOrderRecord_untouched w :
  handleOrderRecord None w = (Throw TypeError, w)
  /\ (forall record e,
        orderType (record_order record) <> market ->
        record_action record = place ->
        getUserOrdersAccountPublicKey (record_user record) = inl e ->
        handleOrderRecord (Some record) w = (Throw e, w))
  /\ (forall record,
        orderType (record_order record) = market ->
        handleOrderRecord (Some record) w = (Return tt, w)).
Proof.
  split; [reflexivity |]. split.
  - intros record e Hkind Hplace Hpda. unfold handleOrderRecord. munfold.
    simpl. destruct (orderType (record_order record)); try contradiction;
      simpl; rewrite Hplace, Hpda; reflexivity.
  - intros record Hm. unfold handleOrderRecord. munfold. simpl.
    rewrite Hm. reflexivity.
Qed.

End DrainEdges.

(** ** The monitoring pass over a user's orders *)

Section MonitorFrame.
Context `{Collaborators}.

Lemma keeps_outsideBook_printTopOfOrderLists mi :
  keeps outsideBook (printTopOfOrderLists mi).
Proof. apply keeps_printTopOfOrderLists. reflexivity. Qed.

Lemma keeps_outsideBook_updateUserOrders_order user k1 k2 tml order :
  keeps outsideBook (updateUserOrders_order user k1 k2 tml order).
Proof.
  unfold updateUserOrders_order, dlob_disable, dlob_enable.
  repeat first [ apply keeps_outsideBook_printTopOfOrderLists | keeps_step ].
Qed.

Lemma keeps_outsideBook_updateUserOrders user k1 k2 :
  keeps outsideBook (updateUserOrders user k1 k2).
Proof.
  unfold updateUserOrders.
  repeat first
    [ apply keeps_for_of; intros ? _;
      apply keeps_outsideBook_updateUserOrders_order
    | keeps_step ].
Qed.


(** X7: a monitoring pass touches nothing but the book and the console
    (no node mark, no user record, no cursor, no flag), returns the margin
    ratio it read whenever it returns, and does nothing at all for a user
    whose orders account is not loaded. *)
Theorem updateUserOrders_frame user k1 k2 w :
  outsideBook (updateUserOrders user k1 k2 w).2 = outsideBook w
  /\ (forall m, (updateUserOrders user k1 k2 w).1 = Return m ->
                m = getMarginRatio user)
  /\ (getUserOrdersAccount user = None ->
      updateUserOrders user k1 k2 w = (Return (getMarginRatio user), w)).
Proof.
  split; [apply keeps_outsideBook_updateUserOrders |]. split.
  - intros m. apply updateUserOrders_returns.
  - intros Hnone. unfold updateUserOrders. rewrite Hnone. reflexivity.
Qed.

(** X8: the handler of a position update re-evaluates the user's orders
    and then marks the user's record fresh under the user's own key; if
    the re-evaluation throws, the record is left as it was, a stale one
    staying stale. *)
Theorem processUser_onUserPositionsData_refreshes user w :
  match (processUser_onUserPositionsData user w).1 with
  | Return _ =>
      userMap (processUser_onUserPositionsData user w).2
      = <[user_getUserAccountPublicKey user :=
            {| user := user; upToDate := true |}]> (userMap w)
  | Throw _ =>
      userMap (processUser_onUserPositionsData user w).2 = userMap w
  | Diverge => False
  end.
Proof.
  unfold processUser_onUserPositionsData.
  destruct (keeps_outsideBook_updateUserOrders user
              (user_getUserAccountPublicKey user)
              (user_getUserOrdersAccountPublicKey user) w) as [Hk Hd].
  unfold mbind, M_bind.
  destruct (updateUserOrders _ _ _ w) as [[m | e |] w1]; simpl in Hk, Hd;
    unfold outsideBook in Hk; injection Hk as _ Hu _ _ _ _.
  - unfold modify. cbn [fst snd]. cbn [userMap set_userMap].
    rewrite Hu. reflexivity.
  - cbn [fst snd]. exact Hu.
  - contradiction.
Qed.

End MonitorFrame.

(** ** Loading and adding users *)

Section LoaderProperties.
Context `{Collaborators}.

Lemma fetchAllUsers_collect_filter um accts acc :
  fetchAllUsers_collect um accts acc
  = acc ++ map userOf (List.filter (fetchAllUsers_eligible um) accts).
Proof.
  revert acc. induction accts as [| b accts IH]; intros acc; simpl.
  - rewrite app_nil_r. reflexivity.
  - unfold fetchAllUsers_eligible at 1.
    destruct (collateral (account b) <? QUOTE_PRECISION); simpl; [apply IH |].
    destruct (bool_decide (is_Some (um !! publicKey b))); simpl; [apply IH |].
    rewrite IH, <- app_assoc. reflexivity.
Qed.

Lemma fetchAllUsers_register_lookup userArray :
  forall w w' u,
    for_of userArray fetchAllUsers_register w = (Return tt, w') ->
    NoDup (user_getUserAccountPublicKey <$> userArray) ->
    u ∈ userArray ->
    userMap w' !! user_getUserAccountPublicKey u
    = Some {| user := u; upToDate := true |}.
Proof.
  induction userArray as [| x us IH]; intros w w' u Hrun Hnd Hu.
  - inversion Hu.
  - simpl in Hrun, Hnd. apply NoDup_cons in Hnd as [Hx Hnd].
    pose (w1 := set_processUsers (fun l => l ++ [x])
                  (set_userMap
                     (insert (user_getUserAccountPublicKey x)
                        {| user := x; upToDate := true |}) w)).
    rewrite (bind_return _ _ w tt w1) in Hrun by reflexivity.
    apply elem_of_cons in Hu as [-> | Hu].
    + destruct (fetchAllUsers_register_loop us w1) as (w2 & Hrun2 & _ & Hm).
      rewrite Hrun2 in Hrun. injection Hrun as <-.
      rewrite Hm.
      * simpl. apply lookup_insert_eq.
      * intros v Hv Heq. apply Hx. rewrite <- Heq.
        apply list_elem_of_fmap. eauto.
    + eapply IH; eassumption.
Qed.

Lemma fetchAllUsers_register_known userArray :
  forall w w' u,
    for_of userArray fetchAllUsers_register w = (Return tt, w') ->
    u ∈ userArray ->
    is_Some (userMap w' !! user_getUserAccountPublicKey u).
Proof.
  induction userArray as [| x us IH]; intros w w' u Hrun Hin;
    [inversion Hin |].
  simpl in Hrun.
  pose (w1 := set_processUsers (fun l => l ++ [x])
                (set_userMap
                   (insert (user_getUserAccountPublicKey x)
                      {| user := x; upToDate := true |}) w)).
  rewrite (bind_return _ _ w tt w1) in Hrun by reflexivity.
  apply elem_of_cons in Hin as [-> | Hin]; [| eapply IH; eassumption].
  destruct (decide (user_getUserAccountPublicKey x
                    ∈ user_getUserAccountPublicKey <$> us)) as [Hk | Hk].
  - apply list_elem_of_fmap in Hk as (y & Hy & Hyin).
    rewrite Hy. eapply IH; eassumption.
  - destruct (fetchAllUsers_register_loop us w1) as (w2 & Hrun2 & _ & Hm).
    rewrite Hrun2 in Hrun. injection Hrun as <-.
    rewrite Hm.
    + simpl. rewrite lookup_insert_eq. eauto.
    + intros v Hv Heq. apply Hk. rewrite <- Heq.
      apply list_elem_of_fmap. eauto.
Qed.

Lemma NoDup_fmap_filter {A B} (f : A -> B) (q : A -> bool) (l : list A) :
  NoDup (f <$> l) -> NoDup (f <$> List.filter q l).
Proof.
  induction l as [| x l IH]; simpl; intros Hnd; [constructor |].
  apply NoDup_cons in Hnd as [Hx Hnd].
  destruct (q x); simpl; [| auto].
  apply NoDup_cons. split; [| auto].
  intros Hin. apply Hx. apply list_elem_of_fmap in Hin as (y & -> & Hy).
  apply list_elem_of_In, filter_In in Hy as [Hy _].
  apply list_elem_of_fmap. exists y. split; [reflexivity |].
  apply list_elem_of_In. exact Hy.
Qed.

(** X9: when the enumeration and the bulk subscription succeed, the load
    returns, starts one monitoring loop for each account that holds at
    least one dollar and is not in the user map yet, in the order of the
    enumeration and for no other account, and records each of them as
    fresh under its key. *)
Theorem fetchAllUsers_registers_eligible w accts :
  program_account_user_all = inr accts ->
  bulkPollingUserSubscribe
    (map userOf (List.filter (fetchAllUsers_eligible (userMap w)) accts))
    = None ->
  Forall (fun b => user_getUserAccountPublicKey (userOf b) = publicKey b)
         accts ->
  NoDup (publicKey <$> accts) ->
  (fetchAllUsers w).1 = Return tt
  /\ processUsers (fetchAllUsers w).2
     = processUsers w
       ++ map userOf (List.filter (fetchAllUsers_eligible (userMap w)) accts)
  /\ forall b, b ∈ accts ->
       fetchAllUsers_eligible (userMap w) b = true ->
       userMap (fetchAllUsers w).2 !! publicKey b
       = Some {| user := userOf b; upToDate := true |}.
Proof.
  intros Hall Hsub Hpda Hnd.
  unfold fetchAllUsers. rewrite Hall. munfold. simpl.
  rewrite fetchAllUsers_collect_filter. simpl.
  set (userArray :=
         map userOf (List.filter (fetchAllUsers_eligible (userMap w)) accts))
    in *.
  rewrite Hsub. simpl.
  destruct (fetchAllUsers_register_loop userArray w) as (w' & Hrun & Hp & _).
  rewrite Hrun. simpl. split; [reflexivity |]. split; [exact Hp |].
  intros b Hb Hel.
  rewrite Forall_forall in Hpda. rewrite <- (Hpda b Hb).
  apply (fetchAllUsers_register_lookup userArray w w' (userOf b) Hrun).
  - assert (Hkeys : user_getUserAccountPublicKey <$> userArray
                    = publicKey <$>
                        List.filter (fetchAllUsers_eligible (userMap w)) accts).
    { unfold userArray. rewrite <- list_fmap_compose.
      apply list_fmap_ext. intros i a Ha. simpl. apply Hpda.
      apply list_elem_of_lookup_2 in Ha.
      apply list_elem_of_In, filter_In in Ha as [Ha _].
      apply list_elem_of_In. exact Ha. }
    rewrite Hkeys. apply NoDup_fmap_filter. exact Hnd.
  - unfold userArray. apply list_elem_of_In, in_map, filter_In.
    split; [apply list_elem_of_In; exact Hb | exact Hel].
Qed.

(** The keys under which the load inserts are keys the map did not have. *)
Lemma fetchAllUsers_keeps_lookup w k v :
  (forall accts, program_account_user_all = inr accts ->
     Forall (fun b => user_getUserAccountPublicKey (userOf b) = publicKey b)
            accts) ->
  userMap w !! k = Some v ->
  userMap (fetchAllUsers w).2 !! k = Some v.
Proof.
  intros Hpda Hk. unfold fetchAllUsers. munfold.
  destruct program_account_user_all as [e | accts] eqn:Hall; simpl;
    [exact Hk |].
  specialize (Hpda accts eq_refl). rewrite Forall_forall in Hpda.
  destruct (bulkPollingUserSubscribe _) as [e |]; simpl; [exact Hk |].
  match goal with
  | |- context [for_of ?us fetchAllUsers_register w] =>
      destruct (fetchAllUsers_register_loop us w) as (w' & Hrun & _ & Hm);
      assert (Hkeys : forall u, u ∈ us -> user_getUserAccountPublicKey u <> k)
  end.
  { intros u Hu. apply fetchAllUsers_collect_elem in Hu
      as [Hu | (b & Hb & -> & _ & Hnone)]; [inversion Hu |].
    rewrite (Hpda b Hb). intros Heq. rewrite Heq in Hnone.
    assert (Hboth : Some v = None) by (rewrite <- Hk; exact Hnone).
    discriminate Hboth. }
  rewrite Hrun. simpl. rewrite Hm by exact Hkeys. exact Hk.
Qed.

(** X10: the load never overwrites a record of the user map: whatever was
    recorded under a key before is recorded under it afterwards, a stale
    record staying stale; and after a load that succeeded, a second load
    finds no one to register and changes nothing. *)
Theorem fetchAllUsers_idempotent w accts :
  program_account_user_all = inr accts ->
  Forall (fun b => user_getUserAccountPublicKey (userOf b) = publicKey b)
         accts ->
  (forall k v, userMap w !! k = Some v ->
               userMap (fetchAllUsers w).2 !! k = Some v)
  /\ ((fetchAllUsers w).1 = Return tt ->
      bulkPollingUserSubscribe [] = None ->
      fetchAllUsers (fetchAllUsers w).2 = (Return tt, (fetchAllUsers w).2)).
Proof.
  intros Hall Hpda. split.
  - intros k v. apply fetchAllUsers_keeps_lookup.
    intros accts' Hall'. rewrite Hall in Hall'. injection Hall' as <-.
    exact Hpda.
  - intros Hret.
    assert (Hkept : forall k v, userMap w !! k = Some v ->
                      userMap (fetchAllUsers w).2 !! k = Some v).
    { intros k v. apply fetchAllUsers_keeps_lookup.
      intros accts' Hall'. rewrite Hall in Hall'. injection Hall' as <-.
      exact Hpda. }
    assert (Hreg : forall b, b ∈ accts ->
              fetchAllUsers_eligible (userMap w) b = true ->
              is_Some (userMap (fetchAllUsers w).2 !! publicKey b)).
    { intros b Hb Hel. revert Hret.
      unfold fetchAllUsers. rewrite Hall. munfold. simpl.
      rewrite fetchAllUsers_collect_filter. simpl.
      destruct (bulkPollingUserSubscribe _) as [e |]; simpl; [discriminate |].
      intros _.
      match goal with
      | |- context [for_of ?us fetchAllUsers_register w] =>
          destruct (fetchAllUsers_register_loop us w) as (w' & Hrun & _ & _);
          set (userArray := us) in *
      end.
      rewrite Hrun. simpl.
      assert (Hin : userOf b ∈ userArray).
      { unfold userArray. apply list_elem_of_In, in_map, filter_In.
        split; [apply list_elem_of_In; exact Hb | exact Hel]. }
      rewrite Forall_forall in Hpda. rewrite <- (Hpda b Hb).
      exact (fetchAllUsers_register_known userArray w w' (userOf b) Hrun Hin). }
    intros Hsub0.
    set (w1 := (fetchAllUsers w).2) in *.
    unfold fetchAllUsers. rewrite Hall. munfold. simpl.
    rewrite fetchAllUsers_collect_filter. simpl.
    assert (List.filter (fetchAllUsers_eligible (userMap w1)) accts = [])
      as ->.
    { assert (Hnone : forall l, Forall (fun b => b ∈ accts) l ->
                List.filter (fetchAllUsers_eligible (userMap w1)) l = []).
      { induction l as [| b l IHl]; intros Hl; [reflexivity |].
        apply Forall_cons in Hl as [Hb Hl]. simpl.
        rewrite (IHl Hl).
        destruct (fetchAllUsers_eligible (userMap w1) b) eqn:Hel1;
          [| reflexivity].
        exfalso. unfold fetchAllUsers_eligible in Hel1.
        apply andb_true_iff in Hel1 as [Hcol Hmap].
        apply negb_true_iff, bool_decide_eq_false in Hmap. apply Hmap.
        destruct (userMap w !! publicKey b) as [v |] eqn:Hold.
        - exists v. exact (Hkept _ _ Hold).
        - apply Hreg; [exact Hb |].
          unfold fetchAllUsers_eligible. rewrite Hcol. simpl.
          apply negb_true_iff, bool_decide_eq_false.
          intros [v Hv].
          assert (Hboth : Some v = None) by (rewrite <- Hv; exact Hold).
          discriminate Hboth. }
      apply Hnone. apply Forall_forall. auto. }
    simpl. rewrite Hsub0. reflexivity.
Qed.

(** What adding a user does to the world, whatever the outcome. *)
Lemma fetchUserAndAddToUserMap_run pk w :
  match (fetchUserAndAddToUserMap pk w).1 with
  | Return _ =>
      heap (fetchUserAndAddToUserMap pk w).2 = heap w
      /\ fillOrders (fetchUserAndAddToUserMap pk w).2 = fillOrders w
      /\ forall k, k <> pk ->
           userMap (fetchUserAndAddToUserMap pk w).2 !! k = userMap w !! k
  | Throw _ => (fetchUserAndAddToUserMap pk w).2 = w
  | Diverge => False
  end.
Proof.
  unfold fetchUserAndAddToUserMap, processUser. munfold.
  destruct (program_account_user_fetch pk) as [e | ua]; simpl;
    [reflexivity |].
  destruct (user_subscribe _) as [e |]; simpl; [reflexivity |].
  repeat split. intros k Hk. apply lookup_insert_ne. congruence.
Qed.

(** X11: adding a user is all or nothing.  When the account cannot be
    fetched or the subscription is refused the call throws and nothing has
    changed; otherwise it returns a fresh record, which is then the record
    under the requested key, whatever was there before, every other key
    keeping its record, and exactly one monitoring loop has been started,
    for the user of that record. *)
Theorem fetchUserAndAddToUserMap_all_or_nothing pk w :
  match (fetchUserAndAddToUserMap pk w).1 with
  | Return mapValue =>
      upToDate mapValue = true
      /\ userMap (fetchUserAndAddToUserMap pk w).2 !! pk = Some mapValue
      /\ (forall k, k <> pk ->
            userMap (fetchUserAndAddToUserMap pk w).2 !! k = userMap w !! k)
      /\ processUsers (fetchUserAndAddToUserMap pk w).2
         = processUsers w ++ [user mapValue]
  | Throw e => (fetchUserAndAddToUserMap pk w).2 = w
  | Diverge => False
  end.
Proof.
  unfold fetchUserAndAddToUserMap, processUser. munfold.
  destruct (program_account_user_fetch pk) as [e | ua]; simpl;
    [reflexivity |].
  destruct (user_subscribe _) as [e |]; simpl; [reflexivity |].
  split; [reflexivity |]. split; [apply lookup_insert_eq |].
  split; [| reflexivity].
  intros k Hk. apply lookup_insert_ne. congruence.
Qed.

End LoaderProperties.

(** ** The scan of an order list *)

Section ScanProperties.
Context `{Collaborators}.

Lemma bind_ext_run {A B} (c : M A) (k1 k2 : A -> M B) w :
  (forall a w1, c w = (Return a, w1) -> k1 a w1 = k2 a w1) ->
  (c ≫= k1) w = (c ≫= k2) w.
Proof.
  intros Hk. unfold mbind, M_bind.
  destruct (c w) as [[a | e |] w1]; auto.
Qed.

Lemma bind_inv {A B} (c : M A) (k : A -> M B) w b w' :
  (c ≫= k) w = (Return b, w') ->
  exists a w1, c w = (Return a, w1) /\ k a w1 = (Return b, w').
Proof.
  unfold mbind, M_bind.
  destruct (c w) as [[a | e |] w1]; try discriminate. eauto.
Qed.

Lemma findNodesToFill_push_heap node currentNode nodesToFill w res w' :
  findNodesToFill_push node currentNode nodesToFill w = (Return res, w') ->
  heap w' = heap w.
Proof.
  intros Hrun.
  exact (proj1 (findNodesToFill_push_unfilled _ _ _ _ _ _ Hrun)).
Qed.

Lemma findNodesToFill_loop_cutoff node markPrice x n post :
  pricesCross n markPrice = false ->
  forall pre nodesToFill w,
    heap w !! x = Some n ->
    findNodesToFill_loop node (pre ++ x :: post) markPrice nodesToFill w
    = findNodesToFill_loop node pre markPrice nodesToFill w.
Proof.
  intros Hstop.
  induction pre as [| currentNode next IH]; intros nodesToFill w Hx; simpl.
  - rewrite (bind_return _ _ w n w)
      by (unfold deref; munfold; rewrite Hx; reflexivity).
    rewrite Hstop. reflexivity.
  - apply bind_ext_run. intros current w1 Hcur.
    apply deref_Return in Hcur as [-> Hcur].
    destruct (negb (pricesCross current markPrice)); [reflexivity |].
    apply bind_ext_run. intros first w1 Hfirst.
    apply deref_Return in Hfirst as [-> Hfirst].
    assert (Hpush :
      (findNodesToFill_push node currentNode nodesToFill
         ≫= (fun nodesToFill' =>
               findNodesToFill_loop node (next ++ x :: post) markPrice
                 nodesToFill')) w
      = (findNodesToFill_push node currentNode nodesToFill
           ≫= (fun nodesToFill' =>
                 findNodesToFill_loop node next markPrice nodesToFill')) w).
    { apply bind_ext_run. intros res w1 Hrun. apply IH.
      rewrite (findNodesToFill_push_heap _ _ _ _ _ _ Hrun). exact Hx. }
    destruct (postOnly (order first)
              && negb (oraclePriceOffset (order first) =? ZERO));
      [| exact Hpush].
    destruct (isVariant_direction (direction (order first)) long
              && (markPrice >=? price (order first))); [apply IH; exact Hx |].
    destruct (isVariant_direction (direction (order first)) short
              && (markPrice <=? price (order first)));
      [apply IH; exact Hx | exact Hpush].
Qed.

(** X12: the scan of a list ends at the first node whose price does not
    cross: what the scan selects and what it does to the world do not
    depend on the nodes linked behind that node. *)
Theorem findNodesToFill_stops_at_first_non_crossing
    pre x post post' price n w :
  heap w !! x = Some n ->
  pricesCross n price = false ->
  findNodesToFillFromOrderList (pre ++ x :: post) price w
  = findNodesToFillFromOrderList (pre ++ x :: post') price w.
Proof.
  intros Hx Hstop. unfold findNodesToFillFromOrderList, findNodesToFill.
  destruct pre as [| headNode rest]; cbn [app]; cbv beta iota.
  - rewrite !(bind_return _ _ w n w)
      by (unfold deref; munfold; rewrite Hx; reflexivity).
    rewrite Hstop. reflexivity.
  - apply bind_ext_run. intros first w1 Hfirst.
    apply deref_Return in Hfirst as [-> Hfirst].
    destruct (pricesCross first price); [| reflexivity].
    transitivity (findNodesToFill_loop headNode (headNode :: rest) price [] w);
      [| symmetry].
    + exact (findNodesToFill_loop_cutoff headNode price x n post Hstop
               (headNode :: rest) [] w Hx).
    + exact (findNodesToFill_loop_cutoff headNode price x n post' Hstop
               (headNode :: rest) [] w Hx).
Qed.

Lemma findNodesToFill_push_sound node currentNode nodesToFill w res w' :
  findNodesToFill_push node currentNode nodesToFill w = (Return res, w') ->
  res = nodesToFill
  \/ res = nodesToFill ++ [currentNode]
     /\ exists n, heap w !! currentNode = Some n /\ haveFilled n = false.
Proof.
  intros Hrun.
  exact (proj2 (findNodesToFill_push_unfilled _ _ _ _ _ _ Hrun)).
Qed.

Lemma findNodesToFill_loop_sound node markPrice chain :
  forall nodesToFill w res w',
    findNodesToFill_loop node chain markPrice nodesToFill w
      = (Return res, w') ->
    heap w' = heap w
    /\ exists sel,
         res = nodesToFill ++ sel
         /\ sel `sublist_of` chain
         /\ Forall (fun r => exists n, heap w !! r = Some n
                                      /\ haveFilled n = false
                                      /\ pricesCross n markPrice = true) sel.
Proof.
  induction chain as [| currentNode next IH];
    intros nodesToFill w res w' Hrun; simpl in Hrun.
  - injection Hrun as <- <-. split; [reflexivity |].
    exists []. rewrite app_nil_r. repeat split; constructor.
  - apply bind_inv in Hrun as (current & w1 & Hcur & Hrun).
    apply deref_Return in Hcur as [-> Hcur].
    destruct (pricesCross current markPrice) eqn:Hcross; simpl in Hrun.
    2: { injection Hrun as <- <-. split; [reflexivity |].
         exists []. rewrite app_nil_r.
         repeat split; [apply sublist_nil_l | constructor]. }
    apply bind_inv in Hrun as (first & w1 & Hfirst & Hrun).
    apply deref_Return in Hfirst as [-> Hfirst].
    assert (Hskip : forall w0,
      heap w0 = heap w ->
      findNodesToFill_loop node next markPrice nodesToFill w0
        = (Return res, w') ->
      heap w' = heap w
      /\ exists sel,
           res = nodesToFill ++ sel
           /\ sel `sublist_of` (currentNode :: next)
           /\ Forall (fun r => exists n, heap w !! r = Some n
                                        /\ haveFilled n = false
                                        /\ pricesCross n markPrice = true)
                     sel).
    { intros w0 Hw0 Hrun0.
      destruct (IH _ _ _ _ Hrun0) as (Hh & sel & -> & Hsub & Hall).
      split; [congruence |]. exists sel.
      split; [reflexivity |]. split; [apply sublist_cons; exact Hsub |].
      rewrite <- Hw0. exact Hall. }
    assert (Hpush :
      (findNodesToFill_push node currentNode nodesToFill
         ≫= (fun nodesToFill' =>
               findNodesToFill_loop node next markPrice nodesToFill')) w
      = (Return res, w') ->
      heap w' = heap w
      /\ exists sel,
           res = nodesToFill ++ sel
           /\ sel `sublist_of` (currentNode :: next)
           /\ Forall (fun r => exists n, heap w !! r = Some n
                                        /\ haveFilled n = false
                                        /\ pricesCross n markPrice = true)
                     sel).
    { intros Hrun0.
      apply bind_inv in Hrun0 as (acc & w0 & Hp & Hrun0).
      pose proof (findNodesToFill_push_heap _ _ _ _ _ _ Hp) as Hw0.
      destruct (findNodesToFill_push_sound _ _ _ _ _ _ Hp)
        as [-> | [-> (n & Hn & Hfree)]]; [eauto |].
      destruct (IH _ _ _ _ Hrun0) as (Hh & sel & -> & Hsub & Hall).
      split; [congruence |]. exists (currentNode :: sel).
      split; [rewrite <- app_assoc; reflexivity |].
      split; [apply sublist_skip; exact Hsub |].
      constructor; [| rewrite <- Hw0; exact Hall].
      exists n. rewrite Hcur in Hn. injection Hn as <-. auto. }
    destruct (postOnly (order first)
              && negb (oraclePriceOffset (order first) =? ZERO));
      [| exact (Hpush Hrun)].
    destruct (isVariant_direction (direction (order first)) long
              && (markPrice >=? price (order first))); [eauto |].
    destruct (isVariant_direction (direction (order first)) short
              && (markPrice <=? price (order first)));
      [eauto | exact (Hpush Hrun)].
Qed.

(** X13: the nodes a scan returns are nodes of the scanned list, in the
    order of the list; each of them crosses the reference price and is
    not in flight; and the scan has not changed any node object. *)
Theorem findNodesToFillFromOrderList_sound orderList price w res w' :
  findNodesToFillFromOrderList orderList price w = (Return res, w') ->
  heap w' = heap w
  /\ res `sublist_of` orderList
  /\ Forall (fun r => exists n, heap w !! r = Some n
                               /\ haveFilled n = false
                               /\ pricesCross n price = true) res.
Proof.
  unfold findNodesToFillFromOrderList, findNodesToFill.
  destruct orderList as [| headNode rest]; intros Hrun.
  - injection Hrun as <- <-. repeat split; constructor.
  - apply bind_inv in Hrun as (first & w1 & Hfirst & Hrun).
    apply deref_Return in Hfirst as [-> Hfirst].
    destruct (pricesCross first price).
    + destruct (findNodesToFill_loop_sound _ _ _ _ _ _ _ Hrun)
        as (Hh & sel & -> & Hsub & Hall).
      auto.
    + injection Hrun as <- <-.
      repeat split; [apply sublist_nil_l | constructor].
Qed.

Lemma findNodesToFill_loop_stale_head node markPrice w first mapValue :
  heap w !! node = Some first ->
  userMap w !! userAccount first = Some mapValue ->
  upToDate mapValue = false ->
  forall chain nodesToFill,
    (findNodesToFill_loop node chain markPrice nodesToFill w).2 = w
    /\ forall res,
         (findNodesToFill_loop node chain markPrice nodesToFill w).1
           = Return res ->
         res = nodesToFill.
Proof.
  intros Hfirst Hmap Hstale.
  assert (Hderef : deref node w = (Return first, w))
    by (unfold deref; munfold; rewrite Hfirst; reflexivity).
  induction chain as [| currentNode next IH]; intros nodesToFill; simpl.
  - split; [reflexivity | intros res [= <-]; reflexivity].
  - destruct (heap w !! currentNode) as [current |] eqn:Hcur.
    2: { rewrite (bind_throw _ _ w TypeError w)
           by (unfold deref; munfold; rewrite Hcur; reflexivity).
         split; [reflexivity | discriminate]. }
    assert (Hdc : deref currentNode w = (Return current, w))
      by (unfold deref; munfold; rewrite Hcur; reflexivity).
    rewrite (bind_return _ _ w current w Hdc).
    destruct (negb (pricesCross current markPrice));
      [split; [reflexivity | intros res [= <-]; reflexivity] |].
    rewrite (bind_return _ _ w first w Hderef).
    assert (Hpush :
      findNodesToFill_push node currentNode nodesToFill w
      = (Return nodesToFill, w)).
    { unfold findNodesToFill_push.
      rewrite (bind_return _ _ w first w Hderef).
      rewrite (bind_return _ _ w w w) by reflexivity.
      rewrite Hmap.
      rewrite (bind_return _ _ w mapValue w) by reflexivity.
      rewrite (bind_return _ _ w current w Hdc).
      rewrite Hstale, andb_false_r. reflexivity. }
    destruct (postOnly (order first)
              && negb (oraclePriceOffset (order first) =? ZERO));
      [| rewrite (bind_return _ _ w nodesToFill w Hpush); apply IH].
    destruct (isVariant_direction (direction (order first)) long
              && (markPrice >=? price (order first))); [apply IH |].
    destruct (isVariant_direction (direction (order first)) short
              && (markPrice <=? price (order first))); [apply IH |].
    rewrite (bind_return _ _ w nodesToFill w Hpush). apply IH.
Qed.

(** X14: the scan consults one user record, that of the owner of the
    head of the list.  While that record is stale the scan selects
    nothing from the list, whoever owns the nodes behind the head, and
    leaves the world as it is. *)
Theorem findNodesToFillFromOrderList_stale_head
    headNode rest price w first mapValue :
  heap w !! headNode = Some first ->
  userMap w !! userAccount first = Some mapValue ->
  upToDate mapValue = false ->
  (findNodesToFillFromOrderList (headNode :: rest) price w).2 = w
  /\ forall res,
       (findNodesToFillFromOrderList (headNode :: rest) price w).1
         = Return res ->
       res = [].
Proof.
  intros Hfirst Hmap Hstale.
  unfold findNodesToFillFromOrderList, findNodesToFill.
  rewrite (bind_return _ _ w first w)
    by (unfold deref; munfold; rewrite Hfirst; reflexivity).
  destruct (pricesCross first price).
  - exact (findNodesToFill_loop_stale_head headNode price w first mapValue
             Hfirst Hmap Hstale (headNode :: rest) []).
  - split; [reflexivity | intros res [= <-]; reflexivity].
Qed.

End ScanProperties.

(** ** What a scheduling pass submits *)

Section PassProperties.
Context `{Collaborators}.

Section ScanFrame.
Context {X} (f : World -> X).
Hypothesis keeps_fetch : forall pk, keeps f (fetchUserAndAddToUserMap pk).
Hypothesis keeps_log : forall line, keeps f (console_log line).

Lemma keeps_any_deref ref : keeps f (deref ref).
Proof. unfold deref. keeps_auto. Qed.

Lemma keeps_any_findNodesToFill_push node currentNode nodesToFill :
  keeps f (findNodesToFill_push node currentNode nodesToFill).
Proof.
  unfold findNodesToFill_push.
  repeat first
    [ apply keeps_any_deref | apply keeps_fetch | apply keeps_log
    | keeps_step ].
Qed.

Lemma keeps_any_findNodesToFill_loop node chain markPrice nodesToFill :
  keeps f (findNodesToFill_loop node chain markPrice nodesToFill).
Proof.
  revert nodesToFill.
  induction chain as [| currentNode next IH]; intros nodesToFill; simpl.
  - apply keeps_ret.
  - repeat first
      [ apply IH
      | apply keeps_any_deref
      | apply keeps_any_findNodesToFill_push
      | keeps_step ].
Qed.

Lemma keeps_any_findNodesToFillFromOrderList orderList price :
  keeps f (findNodesToFillFromOrderList orderList price).
Proof.
  unfold findNodesToFillFromOrderList, findNodesToFill.
  destruct orderList as [| headNode rest]; [apply keeps_ret |].
  repeat first
    [ apply keeps_any_deref
    | apply keeps_any_findNodesToFill_loop
    | keeps_step ].
Qed.

Lemma keeps_any_unfilled nodesToFill : keeps f (unfilled nodesToFill).
Proof.
  induction nodesToFill as [| r rest IH]; simpl.
  - apply keeps_ret.
  - repeat first [ apply IH | apply keeps_any_deref | keeps_step ].
Qed.

End ScanFrame.

Lemma keeps_nodesAndAttempts_fetch pk :
  keeps nodesAndAttempts (fetchUserAndAddToUserMap pk).
Proof. unfold fetchUserAndAddToUserMap, processUser. keeps_auto. Qed.

Lemma keeps_outsidePass_fetch pk :
  keeps outsidePass (fetchUserAndAddToUserMap pk).
Proof. unfold fetchUserAndAddToUserMap, processUser. keeps_auto. Qed.

Lemma unfilled_run nodesToFill :
  forall w us w1,
    unfilled nodesToFill w = (Return us, w1) ->
    w1 = w
    /\ Forall (fun r => exists n, heap w !! r = Some n
                                 /\ haveFilled n = false) us.
Proof.
  induction nodesToFill as [| r rest IH]; intros w us w1 Hrun;
    simpl in Hrun.
  - injection Hrun as <- <-. split; [reflexivity | constructor].
  - apply bind_inv in Hrun as (n & w0 & Hn & Hrun).
    apply deref_Return in Hn as [-> Hn].
    apply bind_inv in Hrun as (rest' & w0 & Hrest & Hrun).
    destruct (IH _ _ _ Hrest) as [-> Hall].
    injection Hrun as <- <-. split; [reflexivity |].
    destruct (haveFilled n) eqn:Hf; [exact Hall |].
    constructor; [eauto | exact Hall].
Qed.

Lemma flags_raised_refl h : flags_raised h h.
Proof. intros r. left. reflexivity. Qed.

Lemma flags_raised_trans h0 h1 h2 :
  flags_raised h0 h1 -> flags_raised h1 h2 -> flags_raised h0 h2.
Proof.
  intros H01 H12 r.
  destruct (H01 r) as [H1 | H1]; destruct (H12 r) as [H2 | H2];
    rewrite H2, H1; auto.
  right. destruct (h0 !! r); reflexivity.
Qed.

Lemma flags_raised_alter h r :
  flags_raised h (alter (setHaveFilled true) r h).
Proof.
  intros r0. destruct (decide (r0 = r)) as [-> | Hne].
  - right. apply lookup_alter_eq.
  - left. apply lookup_alter_ne. congruence.
Qed.

Lemma flags_raised_in_flight h0 h1 r n :
  flags_raised h0 h1 -> h0 !! r = Some n -> haveFilled n = true ->
  exists n1, h1 !! r = Some n1
             /\ haveFilled n1 = true
             /\ order n1 = order n
             /\ userAccount n1 = userAccount n
             /\ userOrdersAccount n1 = userOrdersAccount n.
Proof.
  intros Hr Hn Hf. destruct (Hr r) as [H1 | H1]; rewrite H1, Hn.
  - exists n. auto.
  - exists (setHaveFilled true n). simpl. auto.
Qed.

(** One turn of the dispatch loop either submits nothing, leaving the
    node objects alone and no stale record fresh, or submits one attempt
    for its node after having put the node in flight and marked the owner
    stale. *)
Lemma dispatch_cases market opd r w :
  (heap (tryFillForMarket_dispatch market opd r w).2 = heap w
   /\ fillOrders (tryFillForMarket_dispatch market opd r w).2 = fillOrders w
   /\ forall k,
        upToDate <$> userMap w !! k = Some false ->
        upToDate <$> userMap (tryFillForMarket_dispatch market opd r w).2 !! k
          = Some false)
  \/ exists n mapValue,
       heap w !! r = Some n
       /\ userMap w !! userAccount n = Some mapValue
       /\ heap (tryFillForMarket_dispatch market opd r w).2
          = alter (setHaveFilled true) r (heap w)
       /\ userMap (tryFillForMarket_dispatch market opd r w).2
          = <[userAccount n := {| user := user mapValue; upToDate := false |}]>
              (userMap w)
       /\ fillOrders (tryFillForMarket_dispatch market opd r w).2
          = fillOrders w
            ++ [{| fill_node := r; fill_user := user mapValue;
                   fill_userAccount := userAccount n;
                   fill_userOrdersAccount := userOrdersAccount n;
                   fill_order := order n |}].
Proof.
  unfold tryFillForMarket_dispatch.
  destruct (heap w !! r) as [n |] eqn:Hn.
  2: { left. rewrite (bind_throw _ _ w TypeError w)
         by (unfold deref; munfold; rewrite Hn; reflexivity).
       auto. }
  rewrite (bind_return _ _ w n w)
    by (unfold deref; munfold; rewrite Hn; reflexivity).
  rewrite (bind_return _ _ w w w) by reflexivity.
  destruct (userMap w !! userAccount n) as [mapValue |] eqn:Hu.
  - match goal with
    | |- context [if ?c then _ else _] => destruct c
    end.
    + left. auto.
    + right. exists n, mapValue. repeat split; try reflexivity; assumption.
  - left.
    rewrite (bind_return _ _ w tt
               (set_console
                  (fun c => c ++ [LogUserNotFoundAdding (userAccount n)]) w))
      by reflexivity.
    pose proof (fetchUserAndAddToUserMap_run (userAccount n)
                  (set_console
                     (fun c => c ++ [LogUserNotFoundAdding (userAccount n)])
                     w)) as Hrun.
    unfold mbind, M_bind.
    destruct (fetchUserAndAddToUserMap (userAccount n) _)
      as [[mv | e |] w1]; simpl in *.
    + destruct Hrun as (Hh & Hf & Hm). repeat split; [exact Hh | exact Hf |].
      intros k Hk. rewrite Hm; [exact Hk |].
      intros Heq. subst k.
      assert (Hk' : upToDate <$> (None : option MapValue) = Some false)
        by (rewrite <- Hu; exact Hk).
      discriminate Hk'.
    + subst w1. auto.
    + contradiction.
Qed.

Lemma attempt_in_flight_later h1 um1 h2 um2 a :
  flags_raised h1 h2 ->
  (forall k, upToDate <$> um1 !! k = Some false ->
             upToDate <$> um2 !! k = Some false) ->
  attempt_in_flight h1 um1 a -> attempt_in_flight h2 um2 a.
Proof.
  intros Hr Hs [(n1 & Hn1 & Hf & Ho & Hu & Huo) Hstale].
  split; [| apply Hs; exact Hstale].
  destruct (flags_raised_in_flight _ _ _ _ Hr Hn1 Hf)
    as (n2 & Hn2 & Hf2 & Ho2 & Hu2 & Huo2).
  exists n2. repeat split; congruence.
Qed.

Lemma dispatch_progress_refl cs w : dispatch_progress cs w w.
Proof.
  exists []. rewrite app_nil_r.
  repeat split; [apply flags_raised_refl | auto | constructor].
Qed.

Lemma dispatch_progress_trans cs1 cs2 w w1 w2 :
  dispatch_progress cs1 w w1 -> dispatch_progress cs2 w1 w2 ->
  dispatch_progress (cs1 ++ cs2) w w2.
Proof.
  intros (new1 & Hf1 & Hr1 & Hs1 & Hall1) (new2 & Hf2 & Hr2 & Hs2 & Hall2).
  exists (new1 ++ new2).
  split; [rewrite Hf2, Hf1, app_assoc; reflexivity |].
  split; [eapply flags_raised_trans; eassumption |].
  split; [auto |].
  apply Forall_app. split.
  - eapply Forall_impl; [exact Hall1 |]. intros a [Hin Hfl].
    split; [apply elem_of_app; left; exact Hin |].
    eapply attempt_in_flight_later; eassumption.
  - eapply Forall_impl; [exact Hall2 |]. intros a [Hin Hfl].
    split; [apply elem_of_app; right; exact Hin | exact Hfl].
Qed.

Lemma dispatch_progress_step market opd c w :
  dispatch_progress [c] w (tryFillForMarket_dispatch market opd c w).2.
Proof.
  destruct (dispatch_cases market opd c w)
    as [(Hh & Hf & Hs) | (n & mapValue & Hn & Hu & Hh & Hm & Hf)].
  - exists []. rewrite app_nil_r, Hh.
    repeat split; [exact Hf | apply flags_raised_refl | exact Hs
                  | constructor].
  - eexists. split; [exact Hf |].
    split; [rewrite Hh; apply flags_raised_alter |].
    assert (Hstale : upToDate <$>
              userMap (tryFillForMarket_dispatch market opd c w).2
                !! userAccount n = Some false).
    { rewrite Hm, lookup_insert_eq. reflexivity. }
    split.
    + intros k Hk. destruct (decide (k = userAccount n)) as [-> | Hne];
        [exact Hstale |].
      rewrite Hm, lookup_insert_ne by congruence. exact Hk.
    + constructor; [| constructor].
      split; [simpl; apply list_elem_of_singleton; reflexivity |].
      split; [| exact Hstale].
      exists (setHaveFilled true n). simpl.
      rewrite Hh, lookup_alter_eq, Hn. repeat split; reflexivity.
Qed.

(** The dispatch loop, however it ends. *)
Lemma dispatch_loop_progress market opd cs :
  forall w,
    dispatch_progress cs w
      (for_of cs (tryFillForMarket_dispatch market opd) w).2.
Proof.
  induction cs as [| c cs IH]; intros w; simpl.
  - apply dispatch_progress_refl.
  - pose proof (dispatch_progress_step market opd c w) as Hstep.
    unfold mbind, M_bind.
    destruct (tryFillForMarket_dispatch market opd c w)
      as [[[] | e |] w1]; simpl in *.
    + exact (dispatch_progress_trans [c] cs w w1 _ Hstep (IH w1)).
    + exact (dispatch_progress_trans [c] cs w w1 w1 Hstep
               (dispatch_progress_refl cs w1)).
    + exact (dispatch_progress_trans [c] cs w w1 w1 Hstep
               (dispatch_progress_refl cs w1)).
Qed.

(** X15: the dispatch loop over a list of candidates, whether it runs to
    its end or a turn throws: every attempt it has handed to the execution
    service is for one of the candidates and carries that node's order and
    accounts; when the loop ends that node is in flight and its owner's
    record is stale; the loop has changed node objects only by raising
    flags, and no record that was stale has become fresh. *)
Theorem dispatch_loop_marks_what_it_submits market opd cs w :
  exists new,
    fillOrders (for_of cs (tryFillForMarket_dispatch market opd) w).2
      = fillOrders w ++ new
    /\ flags_raised (heap w)
         (heap (for_of cs (tryFillForMarket_dispatch market opd) w).2)
    /\ (forall k,
          upToDate <$> userMap w !! k = Some false ->
          upToDate <$>
            userMap (for_of cs (tryFillForMarket_dispatch market opd) w).2
              !! k = Some false)
    /\ Forall
         (fun a =>
            fill_node a ∈ cs
            /\ attempt_in_flight
                 (heap (for_of cs (tryFillForMarket_dispatch market opd) w).2)
                 (userMap
                    (for_of cs (tryFillForMarket_dispatch market opd) w).2)
                 a)
         new.
Proof. exact (dispatch_loop_progress market opd cs w). Qed.

Lemma pass_post_same w w1 :
  nodesAndAttempts w1 = nodesAndAttempts w ->
  pass_post (heap w) (fillOrders w) w1.
Proof.
  intros [= Hh Hf]. exists []. rewrite app_nil_r, Hh.
  repeat split; [exact Hf | apply flags_raised_refl | constructor].
Qed.

Lemma pass_post_bind {A B} (c : M A) (k : A -> M B) w :
  keeps nodesAndAttempts c ->
  (forall a w1, c w = (Return a, w1) ->
                pass_post (heap w1) (fillOrders w1) (k a w1).2) ->
  pass_post (heap w) (fillOrders w) ((c ≫= k) w).2.
Proof.
  intros Hc Hk. destruct (Hc w) as [Hkeep Hd].
  unfold mbind, M_bind.
  destruct (c w) as [[a | e |] w1] eqn:Hrun; simpl in *.
  - injection Hkeep as Hh Hf. rewrite <- Hh, <- Hf. apply Hk. reflexivity.
  - apply pass_post_same. exact Hkeep.
  - contradiction.
Qed.

Lemma keeps_nodesAndAttempts_log line :
  keeps nodesAndAttempts (console_log line).
Proof. keeps_step. Qed.

Lemma keeps_outsidePass_log line : keeps outsidePass (console_log line).
Proof. keeps_step. Qed.

Ltac keeps_pass f Hfetch Hlog :=
  repeat first
    [ apply (keeps_any_findNodesToFillFromOrderList f Hfetch Hlog)
    | apply (keeps_any_unfilled f)
    | apply (keeps_any_deref f)
    | apply Hfetch
    | keeps_step ].

Lemma pass_post_body marketIndex w :
  pass_post (heap w) (fillOrders w) (tryFillForMarket_body marketIndex w).2.
Proof.
  unfold tryFillForMarket_body.
  repeat (cbv beta zeta;
          apply pass_post_bind;
          [ solve [keeps_pass nodesAndAttempts keeps_nodesAndAttempts_fetch
                     keeps_nodesAndAttempts_log]
          | intros ? ? ? ]).
  match goal with
  | Hunf : unfilled _ _ = (Return ?us, ?w1)
    |- pass_post _ _ (for_of _ (tryFillForMarket_dispatch ?m ?o) _).2 =>
      destruct (dispatch_loop_progress m o us w1)
        as (new & Hf & Hr & _ & Hall);
      apply unfilled_run in Hunf as [Heq Hfree]; subst w1
  end.
  exists new. split; [exact Hf |]. split; [exact Hr |].
  eapply Forall_impl; [exact Hall |]. intros att [Hin Hfl].
  split; [| exact Hfl].
  rewrite Forall_forall in Hfree. apply Hfree. exact Hin.
Qed.

Lemma pass_post_tryFillForMarket marketIndex w :
  pass_post (heap w) (fillOrders w) (tryFillForMarket marketIndex w).2.
Proof.
  unfold tryFillForMarket.
  rewrite (bind_return _ _ w w w) by reflexivity.
  destruct (perMarketMutex_held (perMarketMutex w) marketIndex);
    [apply pass_post_same; reflexivity |].
  set (w1 := set_perMarketMutex (insert marketIndex 1) w).
  rewrite (bind_return _ _ w tt w1) by reflexivity.
  destruct (keeps_control_tryFillForMarket_body marketIndex w1) as [_ Hd].
  destruct (try_catch_finally_log (tryFillForMarket_body marketIndex)
              (LogUnexpectedErrorForMarket marketIndex)
              (set_perMarketMutex (insert marketIndex 0)) w1 Hd)
    as (w2 & -> & Hbody).
  pose proof (pass_post_body marketIndex w1) as Hpost.
  change (heap w1) with (heap w) in Hpost.
  change (fillOrders w1) with (fillOrders w) in Hpost.
  destruct Hbody as [Hbody | (e & w0 & Hbody & ->)];
    rewrite Hbody in Hpost; exact Hpost.
Qed.

(** X16: whatever a call of [tryFillForMarket] hands to the execution
    service, it hands over for a node that was not in flight when the call
    started; when the call ends every such node is in flight, its owner's
    record is stale, and the attempt carries the node's order and
    accounts.  The call changes node objects only by raising flags: it
    never takes a node out of flight. *)
Theorem tryFillForMarket_attempts marketIndex w :
  exists new,
    fillOrders (tryFillForMarket marketIndex w).2 = fillOrders w ++ new
    /\ flags_raised (heap w) (heap (tryFillForMarket marketIndex w).2)
    /\ Forall
         (submitted_in_flight (heap w)
            (heap (tryFillForMarket marketIndex w).2)
            (userMap (tryFillForMarket marketIndex w).2))
         new.
Proof. exact (pass_post_tryFillForMarket marketIndex w). Qed.

Lemma keeps_outsidePass_dispatch market opd r :
  keeps outsidePass (tryFillForMarket_dispatch market opd r).
Proof.
  unfold tryFillForMarket_dispatch.
  keeps_pass outsidePass keeps_outsidePass_fetch keeps_outsidePass_log.
Qed.

Lemma keeps_outsidePass_tryFillForMarket marketIndex :
  keeps outsidePass (tryFillForMarket marketIndex).
Proof.
  unfold tryFillForMarket.
  apply keeps_bind; [apply keeps_get | intros w0].
  destruct (perMarketMutex_held (perMarketMutex w0) marketIndex);
    [apply keeps_ret |].
  apply keeps_bind; [keeps_step | intros _].
  apply keeps_try_catch_finally; [| intros e; keeps_step | keeps_step].
  unfold tryFillForMarket_body.
  repeat first
    [ apply keeps_for_of; intros ? _; apply keeps_outsidePass_dispatch
    | apply (keeps_any_findNodesToFillFromOrderList outsidePass
               keeps_outsidePass_fetch keeps_outsidePass_log)
    | apply (keeps_any_unfilled outsidePass)
    | keeps_step ].
Qed.

(** X17: a call of [tryFillForMarket] always returns normally; it leaves
    the book, the history cursor and its guard, the record of applied
    history positions and the refetched users as they were, and the flag
    of every other market as it was. *)
Theorem tryFillForMarket_frame marketIndex w :
  (tryFillForMarket marketIndex w).1 = Return tt
  /\ outsidePass (tryFillForMarket marketIndex w).2 = outsidePass w
  /\ forall m, m <> marketIndex ->
       perMarketMutex (tryFillForMarket marketIndex w).2 !! m
       = perMarketMutex w !! m.
Proof.
  split; [| split].
  - destruct (decide (perMarketMutex w !! marketIndex = Some 1)) as [Hh | Hf].
    + rewrite (tryFillForMarket_skips w marketIndex Hh). reflexivity.
    + exact (proj1 (tryFillForMarket_releases w marketIndex Hf)).
  - exact (proj1 (keeps_outsidePass_tryFillForMarket marketIndex w)).
  - intros m Hm.
    destruct (decide (perMarketMutex w !! marketIndex = Some 1)) as [Hh | Hf].
    + rewrite (tryFillForMarket_skips w marketIndex Hh). reflexivity.
    + rewrite (proj2 (tryFillForMarket_releases w marketIndex Hf)).
      rewrite !lookup_insert_ne by congruence. reflexivity.
Qed.

(** X18: a failed attempt is undone.  When a turn of the dispatch loop
    has submitted an attempt for a node that was not in flight and whose
    owner's record was fresh, and the execution service rejects the
    attempt with any error other than 6043, the rejection handler puts the
    node object and the user map back exactly as they were before the
    turn, and touches neither the book nor the list of refetched users:
    the order is a candidate again on the next pass. *)
Theorem fillOrder_catch_undoes_dispatch market opd r w n mapValue a error :
  heap w !! r = Some n ->
  haveFilled n = false ->
  userMap w !! userAccount n = Some mapValue ->
  upToDate mapValue = true ->
  fillOrders (tryFillForMarket_dispatch market opd r w).2
    = fillOrders w ++ [a] ->
  getErrorCode error <> Some 6043 ->
  (fillOrder_catch a error (tryFillForMarket_dispatch market opd r w).2).1
    = Return tt
  /\ heap (fillOrder_catch a error
             (tryFillForMarket_dispatch market opd r w).2).2 = heap w
  /\ userMap (fillOrder_catch a error
                (tryFillForMarket_dispatch market opd r w).2).2 = userMap w
  /\ dlob (fillOrder_catch a error
             (tryFillForMarket_dispatch market opd r w).2).2 = dlob w
  /\ fetchAccounts (fillOrder_catch a error
                      (tryFillForMarket_dispatch market opd r w).2).2
     = fetchAccounts w.
Proof.
  intros Hn Hfree Hu Hfresh Hsub Hcode.
  destruct (dispatch_cases market opd r w)
    as [(_ & Hf & _) | (n' & mv' & Hn' & Hu' & Hh & Hm & Hf)].
  { rewrite Hf in Hsub.
    apply (f_equal length) in Hsub. rewrite length_app in Hsub.
    simpl in Hsub. lia. }
  rewrite Hn in Hn'. injection Hn' as <-.
  assert (mv' = mapValue) as ->.
  { assert (Hboth : Some mv' = Some mapValue) by (rewrite <- Hu'; exact Hu).
    injection Hboth as ->. reflexivity. }
  rewrite Hf in Hsub. apply app_inv_head in Hsub. injection Hsub as <-.
  assert (Hdispatch : outsidePass (tryFillForMarket_dispatch market opd r w).2
                      = outsidePass w)
    by exact (proj1 (keeps_outsidePass_dispatch market opd r w)).
  set (w1 := (tryFillForMarket_dispatch market opd r w).2) in *.
  assert (Hback : alter (setHaveFilled false) r (heap w1) = heap w).
  { rewrite Hh, alter_alter_eq. apply alter_id.
    intros x Hx. rewrite Hn in Hx. injection Hx as <-.
    unfold compose, setHaveFilled. simpl. rewrite <- Hfree.
    destruct n; reflexivity. }
  unfold fillOrder_catch. cbn [fill_node fill_user].
  set (w2 := set_heap (alter (setHaveFilled false) r) w1).
  rewrite (bind_return _ _ w1 tt w2) by reflexivity.
  rewrite (bind_return _ _ w2 n w2)
    by (unfold deref; munfold; unfold w2; cbn [heap set_heap];
        rewrite Hback, Hn; reflexivity).
  case_bool_decide as Hc; [contradiction |].
  munfold. cbn [fst snd]. unfold w2.
  cbn [heap userMap dlob fetchAccounts set_heap set_userMap set_console].
  split; [reflexivity |]. split; [exact Hback |].
  split.
  - change (<[userAccount n := {| user := user mapValue; upToDate := true |}]>
              (userMap w1) = userMap w).
    rewrite Hm, insert_insert_eq. apply insert_id.
    rewrite <- Hfresh. destruct mapValue. exact Hu.
  - injection Hdispatch as Hd Hfa _ _ _ _.
    split; [change (dlob w1 = dlob w) | change (fetchAccounts w1 = fetchAccounts w)];
      assumption.
Qed.

End PassProperties.

(** ** Passes never lock a market out *)

Lemma passes_run_snoc es e :
  passes_run (es ++ [e]) = pass_step (passes_run es) e.
Proof. unfold passes_run. rewrite fold_left_app. reflexivity. Qed.


(** ** The bounds of the monitoring interval *)

Section IntervalBounds.

Lemma shr_1_nonneg mrs : 0 <= shr_m mrs -> 0 <= shr_m (shr_1 mrs).
Proof.
  destruct mrs as [m r s]. destruct m as [| p | p]; simpl.
  - lia.
  - destruct p; simpl; lia.
  - lia.
Qed.

Lemma iter_pos_shr_1_nonneg p :
  forall mrs, 0 <= shr_m mrs -> 0 <= shr_m (SpecFloat.iter_pos shr_1 p mrs).
Proof.
  induction p as [p IH | p IH |]; intros mrs Hm; simpl.
  - apply IH, IH, shr_1_nonneg, Hm.
  - apply IH, IH, Hm.
  - apply shr_1_nonneg, Hm.
Qed.

Lemma shr_fexp_nonneg m e l :
  0 <= m -> 0 <= shr_m (shr_fexp JsNumber.prec JsNumber.emax m e l).1.
Proof.
  intros Hm. unfold shr_fexp, shr.
  assert (Hrec : 0 <= shr_m (shr_record_of_loc m l))
    by (destruct l as [| []]; exact Hm).
  destruct (fexp _ _ _ - e) as [| p | p]; simpl; try exact Hrec.
  apply iter_pos_shr_1_nonneg, Hrec.
Qed.

Lemma round_nearest_even_nonneg mx lx :
  0 <= mx -> 0 <= round_nearest_even mx lx.
Proof.
  intros Hm. destruct lx as [| []]; simpl; try lia.
  destruct (Z.even mx); lia.
Qed.

Lemma binary_round_aux_signed sx mx ex lx :
  0 <= mx ->
  JsNumber_signed sx (binary_round_aux JsNumber.prec JsNumber.emax sx mx ex lx).
Proof.
  intros Hm. unfold binary_round_aux.
  pose proof (shr_fexp_nonneg mx ex lx Hm) as H1.
  destruct (shr_fexp JsNumber.prec JsNumber.emax mx ex lx) as [mrs' e'].
  simpl in H1.
  pose proof (shr_fexp_nonneg _ e' loc_Exact
                (round_nearest_even_nonneg (shr_m mrs')
                   (loc_of_shr_record mrs') H1)) as H2.
  destruct (shr_fexp JsNumber.prec JsNumber.emax _ e' loc_Exact)
    as [mrs'' e''].
  simpl in H2.
  destruct (shr_m mrs'') as [| p | p]; simpl; [reflexivity | | lia].
  destruct (e'' <=? JsNumber.emax - JsNumber.prec); reflexivity.
Qed.

Lemma ofZ_not_nan z : JsNumber.is_nan (JsNumber.ofZ z) = false.
Proof.
  unfold JsNumber.ofZ, binary_normalize, binary_round.
  destruct z as [| p | p]; [reflexivity | |];
    destruct (shl_align _ _ _) as [mz ez];
    match goal with
    | |- context [binary_round_aux _ _ ?s ?m ?e ?l] =>
        pose proof (binary_round_aux_signed s m e l ltac:(lia)) as Hs;
        destruct (binary_round_aux _ _ s m e l); simpl in *;
          [reflexivity | reflexivity | contradiction | reflexivity]
    end.
Qed.

Lemma mul_not_nan x m e :
  JsNumber.is_nan x = false ->
  JsNumber.is_nan (JsNumber.mul x (S754_finite false m e)) = false.
Proof.
  intros Hx. unfold JsNumber.mul. destruct x as [s | s | | s mx ex]; simpl;
    try reflexivity; try discriminate.
  pose proof (binary_round_aux_signed (xorb s false) (Z.pos (mx * m))
                (ex + e) loc_Exact ltac:(lia)) as Hs.
  destruct (binary_round_aux _ _ _ _ _ _); simpl in *;
    (reflexivity || contradiction).
Qed.

Lemma Math_round_not_nan x :
  JsNumber.is_nan x = false -> JsNumber.is_nan (JsNumber.Math_round x) = false.
Proof.
  intros Hx. destruct x as [s | s | | s m e]; simpl; try reflexivity;
    try discriminate.
  destruct (0 <=? e); [reflexivity |].
  match goal with
  | |- context [if ?c then _ else _] => destruct c
  end; [reflexivity | apply ofZ_not_nan].
Qed.

Lemma pow2_signed x :
  JsNumber.is_nan x = false -> JsNumber_signed false (JsNumber.pow2 x).
Proof.
  intros Hx. unfold JsNumber.pow2, JsNumber.mul.
  destruct x as [s | s | | s m e]; simpl; try discriminate;
    try (destruct s; reflexivity).
  replace (xorb s s) with false by (destruct s; reflexivity).
  apply binary_round_aux_signed. lia.
Qed.

Lemma Math_min_bounds x m e :
  JsNumber_signed false x ->
  JsNumber_le (S754_zero false) (S754_finite false m e) = true ->
  JsNumber_le (S754_zero false)
    (JsNumber.Math_min x (S754_finite false m e)) = true
  /\ JsNumber_le (JsNumber.Math_min x (S754_finite false m e))
       (S754_finite false m e) = true.
Proof.
  intros Hx Hpos.
  assert (Hself : JsNumber_le (S754_finite false m e) (S754_finite false m e)
                  = true).
  { unfold JsNumber_le. simpl. rewrite Z.compare_refl.
    rewrite Pos.compare_cont_refl. reflexivity. }
  unfold JsNumber.Math_min.
  destruct x as [s | s | | s mx ex]; simpl in Hx; try contradiction; subst s;
    simpl.
  - split; reflexivity.
  - split; [exact Hpos | exact Hself].
  - destruct (match ex ?= e with
              | Eq => Pos.compare_cont Eq mx m
              | Lt => Lt
              | Gt => Gt
              end) eqn:Hc.
    + split; [exact Hpos | exact Hself].
    + split; [reflexivity |]. unfold JsNumber_le. simpl. rewrite Hc.
      reflexivity.
    + split; [exact Hpos | exact Hself].
Qed.

(** X20: the interval between two monitoring cycles of a user is a
    number exactly when the margin ratio is one, and it is then at least
    zero and at most one minute, however large or small the ratio. *)
Theorem sleepTimeOf_bounds r :
  (JsNumber.is_nan (sleepTimeOf r) = JsNumber.is_nan r)
  /\ (JsNumber.is_nan r = false ->
      JsNumber_le (S754_zero false) (sleepTimeOf r) = true
      /\ JsNumber_le (sleepTimeOf r) (JsNumber.ofZ 60000) = true).
Proof.
  rewrite sleepTimeOf_spec. unfold spec_sleepTime.
  let v := eval vm_compute in (JsNumber.ofZ 60000) in
  change (JsNumber.ofZ 60000) with v.
  let v := eval vm_compute in (JsNumber.ofZ 100) in
  change (JsNumber.ofZ 100) with v.
  destruct (JsNumber.is_nan r) eqn:Hr.
  - split; [| discriminate].
    destruct r; try discriminate. reflexivity.
  - match goal with
    | |- context [JsNumber.Math_min (JsNumber.pow2 ?y) (S754_finite false ?m ?e)] =>
        pose proof (pow2_signed y
                      (Math_round_not_nan _ (mul_not_nan r _ _ Hr))) as Hsq;
        pose proof (Math_min_bounds (JsNumber.pow2 y) m e Hsq eq_refl)
          as [Hlo Hhi];
        set (t := JsNumber.Math_min (JsNumber.pow2 y) (S754_finite false m e))
          in *
    end.
    split; [| intros _; split; assumption].
    destruct t; try reflexivity. discriminate Hlo.
Qed.

End IntervalBounds.

(** ** The further properties on the example ledger *)


Lemma updateOrderList_nothing_to_do_witness :
  updateOrderList (H := Example.ledger) 1
    (set_nextOrderHistoryIndex (fun _ => Num 3) Example.world0)
  = (Return tt, set_nextOrderHistoryIndex (fun _ => Num 3) Example.world0).
Proof.
  apply (updateOrderList_nothing_to_do (H := Example.ledger) 1
           (set_nextOrderHistoryIndex (fun _ => Num 3) Example.world0)).
  - reflexivity.
  - reflexivity.
  - lia.
Defined.

Lemma updateOrderList_undefined_record_witness :
  updateOrderList (H := Example.ledger) 1
    (set_nextOrderHistoryIndex (fun _ => Num 7) Example.world0)
  = (Return tt,
     set_console
       (fun c => c ++ [LogUnexpectedErrorInUpdateOrderList TypeError])
       (set_nextOrderHistoryIndex (fun _ => Num 7) Example.world0)).
Proof.
  apply (updateOrderList_undefined_record (H := Example.ledger) 1
           (set_nextOrderHistoryIndex (fun _ => Num 7) Example.world0)).
  - reflexivity.
  - vm_compute. reflexivity.
  - vm_compute. reflexivity.
  - lia.
Defined.

Lemma fetchAllUsers_registers_eligible_witness :
  processUsers (fetchAllUsers (H := Example.ledger) Example.world0).2
  = [Example.alice; {| authority := "carol" |}].
Proof.
  refine (proj1 (proj2
    (fetchAllUsers_registers_eligible (H := Example.ledger) Example.world0
       Example.userAccounts _ _ _ _))).
  - reflexivity.
  - reflexivity.
  - repeat constructor.
  - apply (bool_decide_unpack _). vm_compute. exact I.
Defined.

Lemma fetchAllUsers_idempotent_witness :
  (fetchAllUsers (H := Example.ledger) Example.world0).1 = Return tt
  /\ fetchAllUsers (H := Example.ledger)
       (fetchAllUsers (H := Example.ledger) Example.world0).2
     = (Return tt, (fetchAllUsers (H := Example.ledger) Example.world0).2).
Proof.
  split; [vm_compute; reflexivity |].
  refine (proj2
    (fetchAllUsers_idempotent (H := Example.ledger) Example.world0
       Example.userAccounts _ _) _ _).
  - reflexivity.
  - repeat constructor.
  - vm_compute. reflexivity.
  - reflexivity.
Defined.

Lemma findNodesToFill_stops_at_first_non_crossing_witness :
  heap (Example.withUsers true true Example.loaded) !! 2%nat
    = Some Example.node2
  /\ pricesCross (Collaborators := Example.ledger) Example.node2 100 = false
  /\ findNodesToFillFromOrderList (H := Example.ledger)
       [0%nat; 2%nat] 100 (Example.withUsers true true Example.loaded)
     = findNodesToFillFromOrderList (H := Example.ledger)
         [0%nat; 2%nat; 1%nat; 3%nat] 100
         (Example.withUsers true true Example.loaded).
Proof.
  split; [vm_compute; reflexivity |]. split; [vm_compute; reflexivity |].
  apply (findNodesToFill_stops_at_first_non_crossing (H := Example.ledger)
           [0%nat] 2%nat [] [1%nat; 3%nat] 100 Example.node2
           (Example.withUsers true true Example.loaded)).
  - vm_compute. reflexivity.
  - vm_compute. reflexivity.
Defined.

Lemma findNodesToFillFromOrderList_sound_witness :
  [0%nat] `sublist_of` [0%nat; 2%nat]
  /\ Forall (fun r => exists n,
               heap (Example.withUsers true true Example.loaded) !! r = Some n
               /\ haveFilled n = false
               /\ pricesCross (Collaborators := Example.ledger) n 100 = true)
            [0%nat].
Proof.
  refine (proj2
    (findNodesToFillFromOrderList_sound (H := Example.ledger)
       [0%nat; 2%nat] 100 (Example.withUsers true true Example.loaded)
       [0%nat] (Example.withUsers true true Example.loaded) _)).
  vm_compute. reflexivity.
Defined.

Lemma findNodesToFillFromOrderList_stale_head_witness :
  upToDate <$>
    (userMap (Example.withUsers false true Example.loaded) !! "alice")
    = Some false
  /\ (findNodesToFillFromOrderList (H := Example.ledger) [0%nat; 2%nat] 98
        (Example.withUsers false true Example.loaded)).2
     = Example.withUsers false true Example.loaded.
Proof.
  split; [vm_compute; reflexivity |].
  refine (proj1
    (findNodesToFillFromOrderList_stale_head (H := Example.ledger)
       0%nat [2%nat] 98 (Example.withUsers false true Example.loaded)
       (setHaveFilled false Example.node0_inFlight)
       {| user := Example.alice; upToDate := false |} _ _ _)).
  - vm_compute. reflexivity.
  - vm_compute. reflexivity.
  - reflexivity.
Defined.

Lemma fillOrder_catch_undoes_dispatch_witness :
  heap (fillOrder_catch (H := Example.ledger) Example.attempt0 Example.timeout
          (tryFillForMarket_dispatch (H := Example.ledger) Example.market0 95
             0%nat (Example.withUsers true true Example.loaded)).2).2
    = heap (Example.withUsers true true Example.loaded)
  /\ userMap
       (fillOrder_catch (H := Example.ledger) Example.attempt0 Example.timeout
          (tryFillForMarket_dispatch (H := Example.ledger) Example.market0 95
             0%nat (Example.withUsers true true Example.loaded)).2).2
     = userMap (Example.withUsers true true Example.loaded).
Proof.
  destruct (fillOrder_catch_undoes_dispatch (H := Example.ledger)
              Example.market0 95 0%nat
              (Example.withUsers true true Example.loaded)
              (setHaveFilled false Example.node0_inFlight)
              {| user := Example.alice; upToDate := true |}
              Example.attempt0 Example.timeout)
    as (_ & Hh & Hm & _).
  - vm_compute. reflexivity.
  - reflexivity.
  - vm_compute. reflexivity.
  - reflexivity.
  - vm_compute. reflexivity.
  - vm_compute. discriminate.
  - split; [exact Hh | exact Hm].
Defined.
